(** * PMPLearning LINE bot: chunker, delivery planner, generation client,
      request handler and admission gate of [app.py].

    The Python functions are embedded as Rocq functions:
    - a [str] is a list of Unicode code points, so that [len], slicing and
      [rfind] count what Python counts;
    - Python integers are [Z]; slice bounds are clipped the way Python clips
      them;
    - the [while] loop of [split_message] runs on fuel;
    - code that talks to LINE, to x.ai, to the logger and to the shared counter
      lives in a state-and-exception monad whose state records the trace of
      calls. *)

From Stdlib Require Import String Ascii List ZArith NArith Bool Lia.
Import ListNotations.
Open Scope Z_scope.

(* ===================================================================== *)
(** ** Python strings *)
(* ===================================================================== *)

Module PyStr.

(** A character is a Unicode code point. *)
Definition char := N.
Definition str := list char.

Definition len (s : str) : Z := Z.of_nat (length s).

(** *** Literals: UTF-8 text of the source file, decoded to code points. *)

Fixpoint utf8_decode (acc : N) (need : nat) (bs : list N) : str :=
  match bs with
  | [] => []
  | b :: r =>
    match need with
    | O =>
      if (b <? 128)%N then b :: utf8_decode 0%N 0 r
      else if (b <? 224)%N then utf8_decode (b - 192)%N 1 r
      else if (b <? 240)%N then utf8_decode (b - 224)%N 2 r
      else utf8_decode (b - 240)%N 3 r
    | S n =>
      let acc' := (acc * 64 + (b - 128))%N in
      match n with
      | O => acc' :: utf8_decode 0%N 0 r
      | S _ => utf8_decode acc' n r
      end
    end
  end.

Definition u (s : string) : str :=
  utf8_decode 0%N 0 (map N_of_ascii (list_ascii_of_string s)).

Definition NL : char := 10%N.   (* "\n" *)
Definition SP : char := 32%N.   (* " " *)

(** *** Whitespace, as [str.strip()], [str.lstrip()] and [str.rstrip()]
    without argument see it (the characters for which [str.isspace()] holds). *)
Definition isspace (c : char) : bool :=
  ((9 <=? c) && (c <=? 13) || (28 <=? c) && (c <=? 32)
   || (c =? 133) || (c =? 160) || (c =? 5760)
   || (8192 <=? c) && (c <=? 8202)
   || (c =? 8232) || (c =? 8233) || (c =? 8239) || (c =? 8287)
   || (c =? 12288))%N.

(** [text.lstrip()] *)
Fixpoint lstrip (s : str) : str :=
  match s with
  | [] => []
  | c :: r => if isspace c then lstrip r else s
  end.

(** The whitespace that [lstrip] removes. *)
Fixpoint leading_ws (s : str) : str :=
  match s with
  | [] => []
  | c :: r => if isspace c then c :: leading_ws r else []
  end.

(** [text.rstrip()] *)
Definition rstrip (s : str) : str := rev (lstrip (rev s)).

(** The whitespace that [rstrip] removes. *)
Definition trailing_ws (s : str) : str := rev (leading_ws (rev s)).

(** [text.strip()] *)
Definition strip (s : str) : str := rstrip (lstrip s).

(** *** Slices.  A bound [i] of a slice of a string of length [n] is
    clipped: a negative bound counts from the end, and the result is
    forced into [0..n]. *)
Definition adjust (n i : Z) : Z :=
  if i <? 0 then Z.max 0 (i + n) else Z.min i n.

(** [s[:e]] *)
Definition slice_to (s : str) (e : Z) : str :=
  firstn (Z.to_nat (adjust (len s) e)) s.

(** [s[b:]] *)
Definition slice_from (s : str) (b : Z) : str :=
  skipn (Z.to_nat (adjust (len s) b)) s.

(** Index of the last occurrence of [c] in [s]. *)
Fixpoint last_index (c : char) (s : str) : option nat :=
  match s with
  | [] => None
  | x :: r =>
    match last_index c r with
    | Some i => Some (S i)
    | None => if (x =? c)%N then Some O else None
    end
  end.

(** [s.rfind(c, 0, e)] for a one-character [c]: the highest index below the
    clipped [e] that holds [c], or [-1]. *)
Definition rfind (c : char) (s : str) (e : Z) : Z :=
  match last_index c (slice_to s e) with
  | Some i => Z.of_nat i
  | None => -1
  end.

(** [needle in s]: substring test. *)
Fixpoint starts_with (p s : str) : bool :=
  match p, s with
  | [], _ => true
  | _ :: _, [] => false
  | a :: p', b :: s' => (a =? b)%N && starts_with p' s'
  end.

Fixpoint contains (needle s : str) : bool :=
  starts_with needle s ||
  match s with
  | [] => false
  | _ :: r => contains needle r
  end.

Definition str_eqb (a b : str) : bool :=
  if list_eq_dec N.eq_dec a b then true else false.

(** [x in [a, b, ...]] on a list of strings. *)
Definition str_in (x : str) (l : list str) : bool := existsb (str_eqb x) l.

End PyStr.
Import PyStr.

(* ===================================================================== *)
(** ** Chunker: [split_message] *)
(* ===================================================================== *)

Module Chunker.

Definition MAX_LINE_MESSAGE_LENGTH : Z := 1000.

(** Lines 130-134: the cut position of one iteration. *)
Definition split_pos (text : str) (max_length : Z) : Z :=
  let p := rfind NL text max_length in
  let p := if p =? -1 then rfind SP text max_length else p in
  if (p =? -1) || (p <? max_length / 2) then max_length else p.

(** Line 135: the segment appended by one iteration. *)
Definition segment_of (text : str) (max_length : Z) : str :=
  rstrip (slice_to text (split_pos text max_length)).

(** Line 136: the text left for the next iteration. *)
Definition rest_of (text : str) (max_length : Z) : str :=
  lstrip (slice_from text (split_pos text max_length)).

(** Lines 128-139.  [None]: the loop is still running when the fuel is
    spent. *)
Fixpoint split_loop (fuel : nat) (text : str) (max_length : Z)
         (parts : list str) : option (list str) :=
  match fuel with
  | O => None
  | S fuel' =>
    if len text >? max_length then
      split_loop fuel' (rest_of text max_length) max_length
                 (parts ++ [segment_of text max_length])
    else
      Some (match text with
            | [] => parts
            | _ :: _ => parts ++ [text]
            end)
  end.

(** One unit of fuel per character and one for the last test. *)
Definition split_message (text : str) (max_length : Z) : option (list str) :=
  split_loop (S (length text)) text max_length [].

(** The runs of the loop, as a relation between the text and the segments
    it is cut into. *)
Inductive splits (max_length : Z) : str -> list str -> Prop :=
| splits_empty : splits max_length [] []
| splits_last text :
    text <> [] -> len text <= max_length ->
    splits max_length text [text]
| splits_cut text segs :
    len text > max_length ->
    splits max_length (rest_of text max_length) segs ->
    splits max_length text (segment_of text max_length :: segs).

End Chunker.
Import Chunker.

(* ===================================================================== *)
(** ** Effects: exceptions, the trace of outside calls, the shared counter *)
(* ===================================================================== *)

Module Eff.

Set Warnings "-register-all".

(** A value as [response.json()] builds it. *)
Inductive pyval :=
| PyNone
| PyBool (b : bool)
| PyNum (z : Z)
| PyStr (s : str)
| PyList (l : list pyval)
| PyDict (d : list (str * pyval)).

Inductive exn :=
| LineBotApiError      (* a LINE SDK call failed *)
| RequestException     (* requests.post failed *)
| JSONDecodeError
| AttributeError
| IndexError
| KeyError
| TypeError.

Inductive level := INFO | ERROR.

(** What the program does to the outside, in order. *)
Inductive event :=
| ReplyMessage (reply_token : str) (messages : list pyval)
| PushMessage (to : str) (message : pyval)
| ShowLoadingAnimation (chat_id : str) (loading_seconds : Z)
| Post (user_message : str)                 (* requests.post to api.x.ai *)
| Log (lv : level) (format : string)
| Sleep (milliseconds : Z)
| ThreadStart
| Join (timeout_ms : option Z).

(** How [requests.post] ends. *)
Inductive http :=
| NoAnswer                                   (* it never returns *)
| TransportError                             (* it raises *)
| Response (status_code : Z) (json : option pyval).
                                             (* [json = None]: [response.json()] raises *)

(** The outside world of one run: what x.ai does, how long it takes, and
    which LINE SDK calls succeed ([line_ok k]: the call made when the trace
    has [k] entries returns normally). *)
Record Env := {
  xai : http;
  xai_latency_ms : Z;
  line_ok : nat -> bool
}.

Record world := {
  trace : list event;
  current_requests : Z
}.

Inductive result (A : Type) :=
| Ret (a : A)
| Raise (e : exn)
| Hang.
Arguments Ret {A} a.
Arguments Raise {A} e.
Arguments Hang {A}.

Definition M (A : Type) := world -> result A * world.

Definition ret {A} (a : A) : M A := fun w => (Ret a, w).
Definition raise {A} (e : exn) : M A := fun w => (Raise e, w).
Definition hang {A} : M A := fun w => (Hang, w).

Definition bind {A B} (m : M A) (k : A -> M B) : M B :=
  fun w =>
    match m w with
    | (Ret a, w') => k a w'
    | (Raise e, w') => (Raise e, w')
    | (Hang, w') => (Hang, w')
    end.

(** [try: m  except Exception as e: h e] *)
Definition try_except {A} (m : M A) (h : exn -> M A) : M A :=
  fun w =>
    match m w with
    | (Raise e, w') => h e w'
    | r => r
    end.

(** [try: m  finally: f] *)
Definition try_finally {A} (m : M A) (f : M unit) : M A :=
  fun w =>
    match m w with
    | (Ret a, w') =>
      match f w' with
      | (Ret _, w'') => (Ret a, w'')
      | (Raise e, w'') => (Raise e, w'')
      | (Hang, w'') => (Hang, w'')
      end
    | (Raise e, w') =>
      match f w' with
      | (Ret _, w'') => (Raise e, w'')
      | (Raise e', w'') => (Raise e', w'')
      | (Hang, w'') => (Hang, w'')
      end
    | (Hang, w') => (Hang, w')
    end.

Definition emit (ev : event) : M unit :=
  fun w => (Ret tt, {| trace := trace w ++ [ev];
                       current_requests := current_requests w |}).

Definition log (lv : level) (format : string) : M unit := emit (Log lv format).

Definition read_current_requests : M Z :=
  fun w => (Ret (current_requests w), w).

Definition write_current_requests (n : Z) : M unit :=
  fun w => (Ret tt, {| trace := trace w; current_requests := n |}).

(** A LINE SDK call: recorded, then it returns or raises as the world
    decides. *)
Definition line_call (E : Env) (ev : event) : M unit :=
  fun w =>
    let w' := {| trace := trace w ++ [ev];
                 current_requests := current_requests w |} in
    if line_ok E (List.length (trace w)) then (Ret tt, w')
    else (Raise LineBotApiError, w').

Fixpoint for_each {A} (l : list A) (body : A -> M unit) : M unit :=
  match l with
  | [] => ret tt
  | x :: r => bind (body x) (fun _ => for_each r body)
  end.

End Eff.
Import Eff.

Declare Scope eff_scope.
Delimit Scope eff_scope with eff.
Notation "x <- m ;; k" := (bind m (fun x => k))
  (at level 61, m at next level, right associativity) : eff_scope.
Notation "m ;;; k" := (bind m (fun _ => k))
  (at level 61, right associativity) : eff_scope.

(* ===================================================================== *)
(** ** Generation client: [call_xai_api] *)
(* ===================================================================== *)

Module Xai.
Open Scope eff_scope.

Definition FALLBACK_STATUS : str :=
  u "對不起，生成回應時發生錯誤。可能原因包括：系統繁忙、API 回應延遲或網絡問題，請稍後再試。".
Definition FALLBACK_EXCEPTION : str :=
  u "對不起，生成回應時發生例外。可能原因包括：系統繁忙、API 回應延遲或網絡問題，請稍後再試。".

Fixpoint assoc (k : str) (d : list (str * pyval)) : option pyval :=
  match d with
  | [] => None
  | (k', v) :: r => if str_eqb k k' then Some v else assoc k r
  end.

(** [v.get(key, default)]: only a dict has [get]. *)
Definition py_get (v : pyval) (key : str) (default : pyval) : M pyval :=
  match v with
  | PyDict d =>
    match assoc key d with
    | Some x => ret x
    | None => ret default
    end
  | _ => raise AttributeError
  end.

(** [v[0]] *)
Definition py_index0 (v : pyval) : M pyval :=
  match v with
  | PyList (x :: _) => ret x
  | PyList [] => raise IndexError
  | PyStr (c :: _) => ret (PyStr [c])
  | PyStr [] => raise IndexError
  | PyDict _ => raise KeyError            (* the keys of a JSON object are strings *)
  | PyNone | PyBool _ | PyNum _ => raise TypeError
  end.

(** Line 112.  The payload is fixed but for the user's message. *)
Definition requests_post (E : Env) (user_message : str) : M (Z * option pyval) :=
  emit (Post user_message) ;;;
  match xai E with
  | NoAnswer => hang
  | TransportError => raise RequestException
  | Response status_code json => ret (status_code, json)
  end.

(** Line 114: [response.json()] *)
Definition response_json (json : option pyval) : M pyval :=
  match json with
  | Some v => ret v
  | None => raise JSONDecodeError
  end.

(** Lines 111-121. *)
Definition call_xai_api (E : Env) (user_message : str) : M pyval :=
  try_except
    (response <- requests_post E user_message ;;
     if fst response =? 200 then
       result <- response_json (snd response) ;;
       choices <- py_get result (u "choices") (PyList [PyDict []]) ;;
       first <- py_index0 choices ;;
       message <- py_get first (u "message") (PyDict []) ;;
       py_get message (u "content") (PyStr [])
     else
       log ERROR "x.ai API 回應錯誤，狀態碼: %s, 回應內容: %s" ;;;
       ret (PyStr FALLBACK_STATUS))
    (fun e =>
       log ERROR "呼叫 x.ai API 時發生例外：%s" ;;;
       ret (PyStr FALLBACK_EXCEPTION)).

End Xai.
Import Xai.

(* ===================================================================== *)
(** ** Delivery planner: [reply_long_text] *)
(* ===================================================================== *)

Module Delivery.
Open Scope eff_scope.

(** [split_message] on whatever the generation client returned.  A [str]
    goes through the chunker; a JSON array or object has [len] but no
    [rfind]; anything else has no [len]. *)
Definition split_message_dyn (text : pyval) (max_length : Z) : M (list pyval) :=
  match text with
  | PyStr s =>
    match split_message s max_length with
    | Some parts => ret (map PyStr parts)
    | None => hang
    end
  | PyList l =>
    if Z.of_nat (List.length l) >? max_length then raise AttributeError
    else ret (match l with [] => [] | _ :: _ => [text] end)
  | PyDict d =>
    if Z.of_nat (List.length d) >? max_length then raise AttributeError
    else ret (match d with [] => [] | _ :: _ => [text] end)
  | PyNone | PyBool _ | PyNum _ => raise TypeError
  end.

(** [msg.text[:20]], evaluated for the log line after a push. *)
Definition text_head (msg : pyval) : M unit :=
  match msg with
  | PyStr _ | PyList _ => ret tt
  | PyDict _ | PyNone | PyBool _ | PyNum _ => raise TypeError
  end.

(** Lines 156-162: one round of the push loop. *)
Definition push_one (E : Env) (user_id : str) (msg : pyval) : M unit :=
  try_except
    (line_call E (PushMessage user_id msg) ;;;
     text_head msg ;;;
     log INFO "成功傳送後續訊息 (push_message): %s" ;;;
     emit (Sleep 500))
    (fun e => log ERROR "傳送後續訊息失敗 (push_message): %s").

(** Lines 149-164, on the messages built at line 148. *)
Definition send_messages (E : Env) (reply_token user_id : str)
           (messages : list pyval) : M unit :=
  try_except
    (if Z.of_nat (List.length messages) <=? 5 then
       line_call E (ReplyMessage reply_token messages) ;;;
       log INFO "成功傳送 %d 條訊息 (reply_message)"
     else
       line_call E (ReplyMessage reply_token (firstn 5 messages)) ;;;
       log INFO "成功傳送前 5 條訊息 (reply_message)" ;;;
       for_each (skipn 5 messages) (push_one E user_id))
    (fun e => log ERROR "回覆訊息失敗: %s").

(** Lines 147-164. *)
Definition reply_long_text (E : Env) (reply_token user_id : str)
           (text : pyval) : M unit :=
  segments <- split_message_dyn text MAX_LINE_MESSAGE_LENGTH ;;
  send_messages E reply_token user_id segments.

End Delivery.
Import Delivery.

(* ===================================================================== *)
(** ** Request handler: [handle_message], one invocation on its own *)
(* ===================================================================== *)

Module Handler.
Open Scope eff_scope.

Definition MAX_CONCURRENT_REQUESTS : Z := 5.

Definition EXTRA_BLOCK : str :=
  u "PMP 答題思維" ++ [NL] ++
  u "- 是否應該遵循 PMBOK 的流程？是的，PDM 是 PMBOK 第 6 版第 6 章《專案時間管理》的一部分，特別是在活動排序過程中使用。" ++ [NL] ++
  u "- 這個選項是否與 PMP 最佳實踐相符？是的，使用 PDM 繪製活動之間的邏輯關係是符合 PMI 的最佳實踐。" ++ [NL] ++
  u "- 是否需要與利害關係人協商，或遵循變更管理流程？在繪製 PDM 的階段，通常不需要與利害關係人協商，但如果活動之間的依賴關係變更，可能需要啟動變更管理流程。" ++ [NL; NL] ++
  u "【PMBOK 章節參考】：PMBOK 第 6 版，第 6 章《專案時間管理》。".

Definition WHY_QUERIES : list str :=
  [u "查詢原因"; u "為什麼沒有回應"; u "無回應原因"].
Definition WHY_REPLY : str :=
  u "可能原因包括：系統繁忙、API 回應延遲或網絡問題。請稍後再試或聯繫我們。".
Definition BUSY_REPLY : str :=
  u "低成本維運中😅 目前系統繁忙，等等在試試吧！".
Definition THREAD_FALLBACK : str := u "生成回應時發生錯誤，請稍後再試。".
Definition DEFAULT_RESPONSE : str :=
  u "對不起，生成回應時發生錯誤。可能原因包括：系統繁忙、API 回應延遲或網絡問題，請稍後再試。".
Definition TRIGGER : str := u "定義".
Definition JOIN_TIMEOUT_MS : Z := 15000.

(** What the handler reads of a [MessageEvent]. *)
Record MessageEvent := {
  message_text : str;      (* event.message.text *)
  reply_token : str;       (* event.reply_token *)
  user_id : str            (* event.source.user_id *)
}.

(** The dict [container]: its only key is ['response']. *)
Definition container := option pyval.

(** Lines 76-90. *)
Definition send_loading_animation (E : Env) (user_id : str)
           (loading_seconds : Z) : M unit :=
  try_except
    (line_call E (ShowLoadingAnimation user_id loading_seconds) ;;;
     log INFO "成功發送等待動畫給用戶：%s")
    (fun e => log ERROR "發送等待動畫錯誤：%s").

(** Lines 170-174: the body of the background thread; the result is the
    [container] it leaves. *)
Definition get_api_response (E : Env) (user_message : str) : M container :=
  try_except
    (r <- call_xai_api E user_message ;; ret (Some r))
    (fun e =>
       log ERROR "線程執行錯誤: %s" ;;;
       ret (Some (PyStr THREAD_FALLBACK))).

(** [thread.start()]: the thread's calls are recorded when it starts.  The
    result is the container the thread leaves when it ends ([Some]), or
    [None] when it never ends.  A thread that dies of an exception leaves the
    container as it was, empty. *)
Definition thread_start (body : M container) : M (option container) :=
  fun w =>
    match emit ThreadStart w with
    | (_, w0) =>
      match body w0 with
      | (Ret c, w') => (Ret (Some c), w')
      | (Raise _, w') => (Ret (Some None), w')
      | (Hang, w') => (Ret None, w')
      end
    end.

(** Lines 223-225: how long the handler has waited when it goes on, given
    the time [ends] at which the thread ends ([None]: never). *)
Definition wait_for_thread (ends : option Z) : M Z :=
  emit (Join (Some JOIN_TIMEOUT_MS)) ;;;
  let is_alive := match ends with
                  | Some t => JOIN_TIMEOUT_MS <? t
                  | None => true
                  end in
  if is_alive then
    emit (Join None) ;;;
    match ends with
    | Some t => ret t
    | None => hang
    end
  else
    ret (match ends with Some t => t | None => JOIN_TIMEOUT_MS end).

(** The container as the handler sees it after waiting [waited]: what the
    thread left if it has ended by then, else still empty. *)
Definition container_at (ends : option Z) (left : option container)
           (waited : Z) : container :=
  match ends, left with
  | Some t, Some c => if t <=? waited then c else None
  | _, _ => None
  end.

(** [container.get('response', default)] *)
Definition container_get (c : container) (default : pyval) : pyval :=
  match c with
  | Some v => v
  | None => default
  end.

(** [x += s] for a str [s]: a str is extended, a list takes the characters
    of [s] one by one, nothing else adds to a str. *)
Definition py_iadd_str (x : pyval) (s : str) : M pyval :=
  match x with
  | PyStr t => ret (PyStr (t ++ s))
  | PyList l => ret (PyList (l ++ map (fun c => PyStr [c]) s))
  | PyNone | PyBool _ | PyNum _ | PyDict _ => raise TypeError
  end.

(** Lines 219-228: start the background call, wait for it, read what it
    left. *)
Definition await_response (E : Env) (user_message : str) : M pyval :=
  left <- thread_start (get_api_response E user_message) ;;
  let ends := match left with
              | Some _ => Some (xai_latency_ms E)
              | None => None
              end in
  waited <- wait_for_thread ends ;;
  ret (container_get (container_at ends left waited) (PyStr DEFAULT_RESPONSE)).

(** Lines 229-237: log, append the block on the trigger, deliver. *)
Definition deliver_response (E : Env) (event : MessageEvent)
           (xai_response : pyval) : M unit :=
  log INFO "x.ai response: %s" ;;;
  xai_response <-
    (if contains TRIGGER (strip (message_text event))
     then py_iadd_str xai_response ([NL; NL] ++ EXTRA_BLOCK)
     else ret xai_response) ;;
  reply_long_text E (reply_token event) (user_id event) xai_response ;;;
  log INFO "Reply sent successfully".

(** Lines 211-237: the work guarded by [try ... finally]. *)
Definition guarded_work (E : Env) (event : MessageEvent) : M unit :=
  let user_message := strip (message_text event) in
  log INFO "Received message from %s: %s" ;;;
  send_loading_animation E (user_id event) 10 ;;;
  xai_response <- await_response E user_message ;;
  deliver_response E event xai_response.

(** Lines 239-240. *)
Definition release : M unit :=
  n <- read_current_requests ;;
  write_current_requests (n - 1).

(** Lines 189-240.  Run on its own, the handler always finds the lock
    free; the interleaving of several handlers is the subject of [Gate]. *)
Definition handle_message (E : Env) (event : MessageEvent) : M unit :=
  if str_in (strip (message_text event)) WHY_QUERIES then
    line_call E (ReplyMessage (reply_token event) [PyStr WHY_REPLY])
  else
    n <- read_current_requests ;;
    if n >=? MAX_CONCURRENT_REQUESTS then
      log INFO "系統繁忙：請求數量達上限" ;;;
      line_call E (ReplyMessage (reply_token event) [PyStr BUSY_REPLY])
    else
      write_current_requests (n + 1) ;;;
      try_finally (guarded_work E event) release.

End Handler.
Import Handler.

(* ===================================================================== *)
(** ** Admission gate: several handlers interleaved *)
(* ===================================================================== *)

Module Gate.

(** Where one handler stands.  Each constructor is a point between two
    accesses to what the handlers share: [current_requests] and
    [counter_lock]. *)
Inductive pc :=
| Start (why_query : bool)  (* line 192 not yet run *)
| AtGate                    (* before [with counter_lock], line 200 *)
| Testing                   (* lock held, before the test of line 201 *)
| Denied                    (* lock held, lines 202-207 *)
| Granted                  (* lock held, before line 208 reads the counter *)
| Loaded (v : Z)            (* lock held, line 208 has read [v] *)
| Stored                    (* lock held, line 208 has written *)
| Working                   (* lines 211-237 *)
| AtFinally                 (* before [with counter_lock], line 239 *)
| Releasing                 (* lock held, before line 240 reads the counter *)
| Unloaded (v : Z)          (* lock held, line 240 has read [v] *)
| Restored                  (* lock held, line 240 has written *)
| Done.

Record shared := {
  counter : Z;        (* current_requests *)
  locked : bool       (* counter_lock *)
}.

(** One step of one handler.  A handler that wants the lock while it is
    taken stays where it is.  [Working] stands for all of lines 211-237: they
    touch neither the counter nor the lock, and however they end (return or
    exception) the [finally] clause is next. *)
Definition thread_step (sh : shared) (p : pc) : shared * pc :=
  match p with
  | Start true => (sh, Done)
  | Start false => (sh, AtGate)
  | AtGate =>
    if locked sh then (sh, AtGate)
    else ({| counter := counter sh; locked := true |}, Testing)
  | Testing =>
    if counter sh >=? Handler.MAX_CONCURRENT_REQUESTS then (sh, Denied)
    else (sh, Granted)
  | Denied => ({| counter := counter sh; locked := false |}, Done)
  | Granted => (sh, Loaded (counter sh))
  | Loaded v => ({| counter := v + 1; locked := locked sh |}, Stored)
  | Stored => ({| counter := counter sh; locked := false |}, Working)
  | Working => (sh, AtFinally)
  | AtFinally =>
    if locked sh then (sh, AtFinally)
    else ({| counter := counter sh; locked := true |}, Releasing)
  | Releasing => (sh, Unloaded (counter sh))
  | Unloaded v => ({| counter := v - 1; locked := locked sh |}, Restored)
  | Restored => ({| counter := counter sh; locked := false |}, Done)
  | Done => (sh, Done)
  end.

(** The handler number [i] takes a step. *)
Fixpoint step_at (i : nat) (sh : shared) (ts : list pc) {struct ts}
  : shared * list pc :=
  match ts with
  | [] => (sh, [])
  | t :: r =>
    match i with
    | O => let (sh', t') := thread_step sh t in (sh', t' :: r)
    | S j => let (sh', r') := step_at j sh r in (sh', t :: r')
    end
  end.

Record system := {
  sh : shared;
  handlers : list pc
}.

(** A schedule names the handler that moves at each step. *)
Fixpoint run (schedule : list nat) (s : system) : system :=
  match schedule with
  | [] => s
  | i :: rest =>
    let (sh', ts') := step_at i (sh s) (handlers s) in
    run rest {| sh := sh'; handlers := ts' |}
  end.

(** The server starts with the counter at 0 and every handler at its first
    line; [why_queries] tells, per inbound message, whether it is one of the
    shortcut queries. *)
Definition init (why_queries : list bool) : system :=
  {| sh := {| counter := 0; locked := false |};
     handlers := map Start why_queries |}.

(** A handler holds a ticket from the write of line 208 to the write of
    line 240. *)
Definition ticket (p : pc) : Z :=
  match p with
  | Stored | Working | AtFinally | Releasing | Unloaded _ => 1
  | _ => 0
  end.

Fixpoint tickets (ts : list pc) : Z :=
  match ts with
  | [] => 0
  | p :: r => ticket p + tickets r
  end.

(** A handler holds the lock inside each of the two [with] blocks. *)
Definition holder (p : pc) : Z :=
  match p with
  | Testing | Denied | Granted | Loaded _ | Stored
  | Releasing | Unloaded _ | Restored => 1
  | _ => 0
  end.

Fixpoint holders (ts : list pc) : Z :=
  match ts with
  | [] => 0
  | p :: r => holder p + holders r
  end.

Definition is_done (p : pc) : bool :=
  match p with Done => true | _ => false end.

(** What a handler knows of the counter while it holds the lock. *)
Definition local_ok (c : Z) (p : pc) : Prop :=
  match p with
  | Granted => c < Handler.MAX_CONCURRENT_REQUESTS
  | Loaded v => v = c /\ v < Handler.MAX_CONCURRENT_REQUESTS
  | Unloaded v => v = c
  | _ => True
  end.

Record invariant (s : system) : Prop := {
  inv_tickets : counter (sh s) = tickets (handlers s);
  inv_lock : (if locked (sh s) then 1 else 0) = holders (handlers s);
  inv_local : Forall (local_ok (counter (sh s))) (handlers s);
  inv_ceiling : counter (sh s) <= Handler.MAX_CONCURRENT_REQUESTS
}.

End Gate.

(* ===================================================================== *)
(** ** Vocabulary of the statements *)
(* ===================================================================== *)

Module Spec.

(** [segs] and the whitespace [gaps] cut out after them, put back in
    place: s1 g1 s2 g2 ... *)
Fixpoint weave (segs gaps : list str) : str :=
  match segs with
  | [] => concat gaps
  | s :: ss =>
    match gaps with
    | [] => s ++ weave ss []
    | g :: gs => s ++ g ++ weave ss gs
    end
  end.

Definition all_space (s : str) : Prop := Forall (fun c => isspace c = true) s.

(** The text without any of its whitespace. *)
Definition remove_ws (s : str) : str := filter (fun c => negb (isspace c)) s.

(** [p] is the place of the last [c] in [s]. *)
Definition is_last (c : char) (s : str) (p : nat) : Prop :=
  nth_error s p = Some c /\ forall q, (p < q)%nat -> nth_error s q <> Some c.

(** The cut as the specification words it: the last newline within the
    first [max_length] characters, else the last space within them; a place
    found before half of [max_length], or no place found, gives a cut at
    [max_length]. *)
Inductive cut_at (text : str) (max_length : Z) : Z -> Prop :=
| cut_newline p :
    is_last NL (firstn (Z.to_nat max_length) text) p ->
    max_length / 2 <= Z.of_nat p ->
    cut_at text max_length (Z.of_nat p)
| cut_newline_early p :
    is_last NL (firstn (Z.to_nat max_length) text) p ->
    Z.of_nat p < max_length / 2 ->
    cut_at text max_length max_length
| cut_space p :
    ~ In NL (firstn (Z.to_nat max_length) text) ->
    is_last SP (firstn (Z.to_nat max_length) text) p ->
    max_length / 2 <= Z.of_nat p ->
    cut_at text max_length (Z.of_nat p)
| cut_space_early p :
    ~ In NL (firstn (Z.to_nat max_length) text) ->
    is_last SP (firstn (Z.to_nat max_length) text) p ->
    Z.of_nat p < max_length / 2 ->
    cut_at text max_length max_length
| cut_hard :
    ~ In NL (firstn (Z.to_nat max_length) text) ->
    ~ In SP (firstn (Z.to_nat max_length) text) ->
    cut_at text max_length max_length.

(** [t] is [s] with the whitespace at its end taken off. *)
Definition right_trimmed (s t : str) : Prop :=
  exists ws, s = t ++ ws /\ all_space ws /\
             forall c, last t NL = c -> t <> [] -> isspace c = false.

(** [t] is [s] with the whitespace at its start taken off. *)
Definition left_trimmed (s t : str) : Prop :=
  exists ws, s = ws ++ t /\ all_space ws /\
             forall c r, t = c :: r -> isspace c = false.

(** The LINE sends of a trace, in order. *)
Definition is_send (ev : event) : bool :=
  match ev with
  | ReplyMessage _ _ | PushMessage _ _ => true
  | _ => false
  end.

Definition sends (tr : list event) : list event := filter is_send tr.

Definition is_post (ev : event) : bool :=
  match ev with Post _ => true | _ => false end.

Definition is_error_log (ev : event) : bool :=
  match ev with Log ERROR _ => true | _ => false end.

(** The events a run adds to the trace. *)
Definition added (w w' : world) (evs : list event) : Prop :=
  trace w' = trace w ++ evs.

(** The world after the events [evs], the counter untouched. *)
Definition extend (w : world) (evs : list event) : world :=
  {| trace := trace w ++ evs; current_requests := current_requests w |}.

(** The waits of lines 223-225 as they show in the trace: the bounded
    join, and the unbounded one when the thread outlives the bound. *)
Definition waits (E : Env) : list event :=
  Join (Some Handler.JOIN_TIMEOUT_MS)
  :: (if Handler.JOIN_TIMEOUT_MS <? xai_latency_ms E then [Join None] else []).

(** A computation that leaves [current_requests] as it found it. *)
Definition keeps_counter {A} (m : M A) : Prop :=
  forall w, current_requests (snd (m w)) = current_requests w.

(** The answer text at [choices[0].message.content] of a response body. *)
Definition body_with_content (content : pyval) (others : list (str * pyval))
  : pyval :=
  PyDict [(u "choices",
           PyList [PyDict [(u "message",
                            PyDict ((u "content", content) :: others))]])].

End Spec.
Import Spec.

(* ===================================================================== *)
(** ** Inputs of the examples *)
(* ===================================================================== *)

Module Examples.

Definition fresh : world := {| trace := []; current_requests := 0 |}.

(** A world in which every LINE call fails and x.ai answers at once. *)
Definition line_down : Env :=
  {| xai := Response 200 (Some (body_with_content (PyStr (u "ok")) []));
     xai_latency_ms := 100;
     line_ok := fun _ => false |}.

(** A world in which LINE works and x.ai answers [text] after [ms]. *)
Definition answering (text : str) (ms : Z) : Env :=
  {| xai := Response 200 (Some (body_with_content (PyStr text) []));
     xai_latency_ms := ms;
     line_ok := fun _ => true |}.

(** A world in which LINE works and x.ai fails with [status]. *)
Definition failing (status : Z) : Env :=
  {| xai := Response status None;
     xai_latency_ms := 100;
     line_ok := fun _ => true |}.

Definition token : str := u "token".
Definition user : str := u "U1".

Definition segment (n : N) : pyval := PyStr [n].
Definition six : list pyval :=
  [segment 49; segment 50; segment 51; segment 52; segment 53; segment 54].
Definition seven : list pyval := six ++ [segment 55].
Definition three : list pyval := [segment 49; segment 50; segment 51].

Definition why_event : MessageEvent :=
  {| message_text := u " 查詢原因 "; reply_token := token; user_id := user |}.

Definition question : MessageEvent :=
  {| message_text := u "WBS?"; reply_token := token; user_id := user |}.

(** Two handlers, the second entering the gate while the first works, each
    run to its end. *)
Definition two_handlers : list nat :=
  [0; 0; 0; 0; 0; 0; 1; 1; 1; 1; 1; 1; 0; 0; 0; 0; 0; 0;
   1; 1; 1; 1; 1; 1]%nat.

End Examples.

(* ===================================================================== *)
(** ** Vocabulary of the further properties *)
(* ===================================================================== *)

Module Obs.

(** A text without any whitespace. *)
Definition no_space (s : str) : Prop := Forall (fun c => isspace c = false) s.

(** A text that does not begin, or does not end, with whitespace. *)
Definition no_leading_ws (s : str) : Prop :=
  forall c r, s = c :: r -> isspace c = false.

Definition no_trailing_ws (s : str) : Prop :=
  s <> [] -> isspace (last s NL) = false.

(** A computation only appends to the trace, and only events of the
    kind [P]. *)
Definition appends (P : event -> Prop) {A} (m : M A) : Prop :=
  forall w, exists evs, trace (snd (m w)) = trace w ++ evs /\ Forall P evs.

(** A computation that neither writes to the world nor hangs. *)
Definition pure {A} (m : M A) : Prop :=
  forall w, snd (m w) = w /\ fst (m w) <> Hang.

Definition is_log (ev : event) : bool :=
  match ev with Log _ _ => true | _ => false end.


(** The sends of one handled event: nothing, or one reply on the event's
    token followed by pushes to the event's user. *)
Definition delivery_shape (reply_token user_id : str) (l : list event) : Prop :=
  l = [] \/
  exists messages pushed,
    l = ReplyMessage reply_token messages :: map (PushMessage user_id) pushed.

(** The handler lets the event in: not a shortcut query, and the counter
    below the ceiling. *)
Definition admits (event : MessageEvent) (w : world) : bool :=
  negb (str_in (strip (message_text event)) WHY_QUERIES)
  && (current_requests w <? MAX_CONCURRENT_REQUESTS).

(** The text that line 233 makes of the answer [t]. *)
Definition augmented (user_message t : str) : str :=
  if contains TRIGGER user_message then t ++ [NL; NL] ++ EXTRA_BLOCK else t.

(** A JSON [null], boolean or number: a content that is no text and has
    no length. *)
Definition not_text (v : pyval) : bool :=
  match v with
  | PyNone | PyBool _ | PyNum _ => true
  | PyStr _ | PyList _ | PyDict _ => false
  end.


(** A world in which x.ai never answers. *)
Definition silent : Env :=
  {| xai := NoAnswer; xai_latency_ms := 0; line_ok := fun _ => true |}.

(** Handlers inside lines 211-237. *)
Definition working (p : Gate.pc) : Z :=
  match p with Gate.Working => 1 | _ => 0 end.

Fixpoint in_flight (ts : list Gate.pc) : Z :=
  match ts with
  | [] => 0
  | p :: r => working p + in_flight r
  end.

(** [n] steps of one handler on its own. *)
Fixpoint solo (n : nat) (s : Gate.shared) (p : Gate.pc) : Gate.shared * Gate.pc :=
  match n with
  | O => (s, p)
  | S k => let (s', p') := Gate.thread_step s p in solo k s' p'
  end.

(** The joins of a trace. *)
Definition is_join (ev : event) : bool :=
  match ev with Join _ => true | _ => false end.

(** A computation whose result does not depend on the world it runs in. *)
Definition steady {A} (m : M A) : Prop :=
  forall w w', fst (m w) = fst (m w').

(** A handler at rest as far as the gate goes: at its end, or inside its
    guarded work. *)
Definition resting (p : Gate.pc) : bool :=
  match p with Gate.Done | Gate.Working => true | _ => false end.

Definition at_work (p : Gate.pc) : bool :=
  match p with Gate.Working => true | _ => false end.

(** [n] steps of one handler on its own take none out of the guarded
    work. *)
Fixpoint solo_avoids (n : nat) (s : Gate.shared) (p : Gate.pc) : bool :=
  match n with
  | O => true
  | S k => negb (at_work p)
           && let (s', p') := Gate.thread_step s p in solo_avoids k s' p'
  end.

(** A schedule that never lets a guarded work end: no step of it is taken
    by a handler inside lines 211-237. *)
Fixpoint avoids_work (schedule : list nat) (st : Gate.system) : bool :=
  match schedule with
  | [] => true
  | i :: rest =>
    match nth_error (Gate.handlers st) i with
    | Some p => negb (at_work p)
    | None => true
    end
    && let (sh', ts') := Gate.step_at i (Gate.sh st) (Gate.handlers st) in
       avoids_work rest {| Gate.sh := sh'; Gate.handlers := ts' |}
  end.

(** A world in which LINE works and x.ai answers 200 with the JSON
    [body]. *)
Definition answering_json (body : pyval) : Env :=
  {| xai := Response 200 (Some body);
     xai_latency_ms := 100;
     line_ok := fun _ => true |}.

Definition definition_question : MessageEvent :=
  {| message_text := u "WBS 定義"; reply_token := Examples.token;
     user_id := Examples.user |}.

End Obs.
Import Obs.

(* ===================================================================== *)
(** * Proofs *)
(* ===================================================================== *)

(** ** Strings *)

Section StringFacts.

Lemma isspace_NL : isspace NL = true.
Proof. reflexivity. Qed.

Lemma isspace_SP : isspace SP = true.
Proof. reflexivity. Qed.

Lemma lstrip_split (s : str) : leading_ws s ++ lstrip s = s.
Proof.
  induction s as [|c r IH]; simpl; [reflexivity|].
  destruct (isspace c); simpl; [now rewrite IH | reflexivity].
Qed.

Lemma leading_ws_space (s : str) : all_space (leading_ws s).
Proof.
  induction s as [|c r IH]; simpl; [constructor|].
  destruct (isspace c) eqn:Hc; constructor; assumption.
Qed.

Lemma lstrip_head (s : str) c r : lstrip s = c :: r -> isspace c = false.
Proof.
  induction s as [|x t IH]; simpl; [discriminate|].
  destruct (isspace x) eqn:Hx; [exact IH|].
  intros H; injection H as -> _; exact Hx.
Qed.

Lemma lstrip_length (s : str) : (length (lstrip s) <= length s)%nat.
Proof.
  rewrite <- (lstrip_split s) at 2. rewrite length_app. lia.
Qed.

Lemma lstrip_length_space c (r : str) :
  isspace c = true -> (length (lstrip (c :: r)) < length (c :: r))%nat.
Proof.
  intros Hc. simpl. rewrite Hc. pose proof (lstrip_length r). lia.
Qed.

Lemma rstrip_split (s : str) : rstrip s ++ trailing_ws s = s.
Proof.
  unfold rstrip, trailing_ws. rewrite <- rev_app_distr, lstrip_split.
  apply rev_involutive.
Qed.

Lemma trailing_ws_space (s : str) : all_space (trailing_ws s).
Proof.
  unfold trailing_ws, all_space. apply Forall_rev. apply leading_ws_space.
Qed.

Lemma rstrip_length (s : str) : (length (rstrip s) <= length s)%nat.
Proof.
  unfold rstrip. rewrite length_rev.
  pose proof (lstrip_length (rev s)) as H. rewrite length_rev in H. exact H.
Qed.

Lemma rstrip_last (s : str) :
  rstrip s <> [] -> isspace (last (rstrip s) NL) = false.
Proof.
  unfold rstrip. destruct (lstrip (rev s)) as [|c r] eqn:E.
  - intros H; now elim H.
  - intros _. simpl rev. rewrite last_last. exact (lstrip_head _ _ _ E).
Qed.

Lemma lstrip_left_trimmed (s : str) : left_trimmed s (lstrip s).
Proof.
  exists (leading_ws s). split; [symmetry; apply lstrip_split|].
  split; [apply leading_ws_space|]. intros c r. apply lstrip_head.
Qed.

Lemma rstrip_right_trimmed (s : str) : right_trimmed s (rstrip s).
Proof.
  exists (trailing_ws s). split; [symmetry; apply rstrip_split|].
  split; [apply trailing_ws_space|].
  intros c <- H. now apply rstrip_last.
Qed.

Lemma remove_ws_app (a b : str) : remove_ws (a ++ b) = remove_ws a ++ remove_ws b.
Proof. apply filter_app. Qed.

Lemma remove_ws_space (s : str) : all_space s -> remove_ws s = [].
Proof.
  induction 1 as [|c r Hc _ IH]; simpl; [reflexivity|].
  now rewrite Hc.
Qed.

Lemma remove_ws_lstrip (s : str) : remove_ws (lstrip s) = remove_ws s.
Proof.
  rewrite <- (lstrip_split s) at 2.
  now rewrite remove_ws_app, (remove_ws_space _ (leading_ws_space s)).
Qed.

Lemma remove_ws_rstrip (s : str) : remove_ws (rstrip s) = remove_ws s.
Proof.
  rewrite <- (rstrip_split s) at 2.
  now rewrite remove_ws_app, (remove_ws_space _ (trailing_ws_space s)), app_nil_r.
Qed.

Lemma remove_ws_strip (s : str) : remove_ws (strip s) = remove_ws s.
Proof. unfold strip. now rewrite remove_ws_rstrip, remove_ws_lstrip. Qed.

(** [last_index] finds the last occurrence, and fails only when there is
    none. *)
Lemma last_index_some c (s : str) p :
  last_index c s = Some p -> is_last c s p /\ (p < length s)%nat.
Proof.
  revert p. induction s as [|x r IH]; simpl; [discriminate|].
  intros p. destruct (last_index c r) as [i|] eqn:E.
  - intros H; injection H as <-. destruct (IH i eq_refl) as [[Hn Hl] Hlt].
    split; [split|lia]; [exact Hn|].
    intros q Hq. destruct q as [|q]; [lia|]. simpl. apply Hl. lia.
  - destruct (N.eqb_spec x c) as [->|Hne]; [|discriminate].
    intros H; injection H as <-. split; [split|lia]; [reflexivity|].
    intros q Hq. destruct q as [|q]; [lia|]. simpl.
    clear IH Hq. revert q. induction r as [|y t IHt]; intros q.
    + destruct q; discriminate.
    + simpl in E. destruct (last_index c t) eqn:Et; [discriminate|].
      destruct (N.eqb_spec y c) as [->|Hy]; [discriminate|].
      destruct q as [|q]; simpl; [congruence|]. now apply IHt.
Qed.

Lemma last_index_none c (s : str) : last_index c s = None -> ~ In c s.
Proof.
  induction s as [|x r IH]; simpl; [tauto|].
  destruct (last_index c r); [discriminate|].
  destruct (N.eqb_spec x c) as [->|Hne]; [discriminate|].
  intros _ [H|H]; [congruence|]. now apply IH.
Qed.

Lemma is_last_unique c (s : str) p q : is_last c s p -> is_last c s q -> p = q.
Proof.
  intros [Hp Lp] [Hq Lq].
  destruct (Nat.lt_trichotomy p q) as [H|[H|H]]; [|exact H|].
  - now elim (Lp q H).
  - now elim (Lq p H).
Qed.

Lemma is_last_In c (s : str) p : is_last c s p -> In c s.
Proof. intros [H _]. eapply nth_error_In; eauto. Qed.

(** For a bound within the text, the slices are [firstn] and [skipn]. *)
Lemma adjust_pos n e : 0 <= e -> adjust n e = Z.min e n.
Proof. unfold adjust. intros H. destruct (Z.ltb_spec e 0); [lia|reflexivity]. Qed.

Lemma slice_to_firstn (s : str) e :
  0 <= e -> slice_to s e = firstn (Z.to_nat e) s.
Proof.
  intros H. unfold slice_to, len. rewrite adjust_pos by exact H.
  destruct (Z.le_ge_cases e (Z.of_nat (length s))).
  - now rewrite Z.min_l.
  - rewrite Z.min_r by assumption. rewrite Nat2Z.id.
    rewrite firstn_all. symmetry. apply firstn_all2. lia.
Qed.

Lemma slice_from_skipn (s : str) b :
  0 <= b -> slice_from s b = skipn (Z.to_nat b) s.
Proof.
  intros H. unfold slice_from, len. rewrite adjust_pos by exact H.
  destruct (Z.le_ge_cases b (Z.of_nat (length s))).
  - now rewrite Z.min_l.
  - rewrite Z.min_r by assumption. rewrite Nat2Z.id.
    rewrite skipn_all. symmetry. apply skipn_all2. lia.
Qed.

Lemma slice_join (s : str) e : slice_to s e ++ slice_from s e = s.
Proof. unfold slice_to, slice_from. apply firstn_skipn. Qed.

End StringFacts.

(** ** Chunker *)

Section ChunkerFacts.

Variable max_length : Z.
Hypothesis max_length_pos : 0 < max_length.


(** An index that [rfind] found is not the [-1] of failure. *)
Ltac found_index p :=
  let Hm := fresh in
  assert (Hm : (Z.of_nat p =? -1) = false) by (apply Z.eqb_neq; lia);
  repeat (rewrite Hm; cbv iota); clear Hm.

Lemma rfind_found c (text : str) p :
  is_last c (firstn (Z.to_nat max_length) text) p -> rfind c text max_length = Z.of_nat p.
Proof.
  intros H. unfold rfind. rewrite slice_to_firstn by lia.
  destruct (last_index c (firstn (Z.to_nat max_length) text)) as [q|] eqn:E.
  - apply last_index_some in E. destruct E as [E _].
    now rewrite (is_last_unique _ _ _ _ H E).
  - apply last_index_none in E. elim E. eapply is_last_In; eauto.
Qed.

Lemma rfind_absent c (text : str) :
  ~ In c (firstn (Z.to_nat max_length) text) -> rfind c text max_length = -1.
Proof.
  intros H. unfold rfind. rewrite slice_to_firstn by lia.
  destruct (last_index c (firstn (Z.to_nat max_length) text)) as [q|] eqn:E; [|reflexivity].
  apply last_index_some in E. destruct E as [E _]. elim H.
  eapply is_last_In; eauto.
Qed.

Lemma rfind_spec c (text : str) :
  (exists p, is_last c (firstn (Z.to_nat max_length) text) p /\ rfind c text max_length = Z.of_nat p)
  \/ (~ In c (firstn (Z.to_nat max_length) text) /\ rfind c text max_length = -1).
Proof.
  destruct (last_index c (firstn (Z.to_nat max_length) text)) as [q|] eqn:E.
  - left. exists q. apply last_index_some in E. destruct E as [E _].
    split; [exact E | now apply rfind_found].
  - right. apply last_index_none in E. split; [exact E | now apply rfind_absent].
Qed.

(** The source's cut is the cut of the specification's wording, and the
    only one. *)
Lemma split_pos_cut_at (text : str) : cut_at text max_length (split_pos text max_length).
Proof.
  unfold split_pos. cbv zeta.
  destruct (rfind_spec NL text) as [[p [Hp ->]]|[Hn ->]].
  - found_index p.
    simpl. destruct (Z.ltb_spec (Z.of_nat p) (max_length / 2)).
    + eapply cut_newline_early; eauto.
    + now apply cut_newline.
  - simpl (-1 =? -1). cbv iota.
    destruct (rfind_spec SP text) as [[p [Hp ->]]|[Hs ->]].
    + found_index p.
      simpl. destruct (Z.ltb_spec (Z.of_nat p) (max_length / 2)).
      * eapply cut_space_early; eauto.
      * now apply cut_space.
    + simpl. now apply cut_hard.
Qed.

Lemma cut_at_split_pos (text : str) k :
  cut_at text max_length k -> k = split_pos text max_length.
Proof.
  unfold split_pos. cbv zeta.
  intros [p Hp Hh|p Hp Hh|p Hn Hp Hh|p Hn Hp Hh|Hn Hs].
  - rewrite (rfind_found _ _ _ Hp).
    found_index p.
    simpl. destruct (Z.ltb_spec (Z.of_nat p) (max_length / 2)); [lia|reflexivity].
  - rewrite (rfind_found _ _ _ Hp).
    found_index p.
    simpl. destruct (Z.ltb_spec (Z.of_nat p) (max_length / 2)); [reflexivity|lia].
  - rewrite (rfind_absent _ _ Hn). simpl (-1 =? -1). cbv iota.
    rewrite (rfind_found _ _ _ Hp).
    found_index p.
    simpl. destruct (Z.ltb_spec (Z.of_nat p) (max_length / 2)); [lia|reflexivity].
  - rewrite (rfind_absent _ _ Hn). simpl (-1 =? -1). cbv iota.
    rewrite (rfind_found _ _ _ Hp).
    found_index p.
    simpl. destruct (Z.ltb_spec (Z.of_nat p) (max_length / 2)); [reflexivity|lia].
  - rewrite (rfind_absent _ _ Hn). simpl (-1 =? -1). cbv iota.
    rewrite (rfind_absent _ _ Hs). reflexivity.
Qed.

Lemma is_last_prefix_bound c (text : str) p :
  is_last c (firstn (Z.to_nat max_length) text) p -> Z.of_nat p < max_length.
Proof.
  intros [H _]. assert (Hlt : (p < length (firstn (Z.to_nat max_length) text))%nat).
  { apply nth_error_Some. congruence. }
  rewrite length_firstn in Hlt. lia.
Qed.

Lemma is_last_prefix_zero c (text : str) :
  is_last c (firstn (Z.to_nat max_length) text) 0 -> exists r, text = c :: r.
Proof.
  intros [H _]. destruct text as [|x r].
  - rewrite firstn_nil in H. discriminate.
  - destruct (Z.to_nat max_length) eqn:E; [lia|]. simpl in H.
    injection H as ->. now exists r.
Qed.

(** The cut lies within [0 .. max_length], and a cut at 0 stands on a
    newline or a space. *)
Lemma split_pos_bounds (text : str) :
  0 <= split_pos text max_length <= max_length.
Proof.
  destruct (split_pos_cut_at text) as [p Hp Hh|p Hp Hh|p Hn Hp Hh|p Hn Hp Hh|Hn Hs];
    try lia; apply is_last_prefix_bound in Hp; lia.
Qed.

Lemma split_pos_zero (text : str) :
  split_pos text max_length = 0 ->
  exists c r, text = c :: r /\ isspace c = true.
Proof.
  intros H0.
  assert (Hc := split_pos_cut_at text). rewrite H0 in Hc.
  inversion Hc as [p Hp Hh Hk|p Hp Hh Hk|p Hn Hp Hh Hk|p Hn Hp Hh Hk|Hn Hs Hk];
    try lia.
  - assert (p = 0%nat) by lia. subst p.
    destruct (is_last_prefix_zero _ _ Hp) as [r ->]. now exists NL, r.
  - assert (p = 0%nat) by lia. subst p.
    destruct (is_last_prefix_zero _ _ Hp) as [r ->]. now exists SP, r.
Qed.

(** Every iteration leaves less text than it found. *)
Lemma rest_of_shorter (text : str) :
  len text > max_length ->
  (length (rest_of text max_length) < length text)%nat.
Proof.
  intros Hlen. unfold rest_of, len in *.
  pose proof (split_pos_bounds text) as Hb.
  rewrite slice_from_skipn by lia.
  destruct (Z.eq_dec (split_pos text max_length) 0) as [H0|Hne].
  - destruct (split_pos_zero text H0) as [c [r [-> Hc]]].
    rewrite H0. simpl skipn. now apply lstrip_length_space.
  - pose proof (lstrip_length (skipn (Z.to_nat (split_pos text max_length)) text)) as Hl.
    rewrite length_skipn in Hl. lia.
Qed.

Lemma segment_of_bounded (text : str) : len (segment_of text max_length) <= max_length.
Proof.
  unfold segment_of, len. pose proof (split_pos_bounds text) as Hb.
  rewrite slice_to_firstn by lia.
  pose proof (rstrip_length (firstn (Z.to_nat (split_pos text max_length)) text)) as Hr.
  rewrite length_firstn in Hr. lia.
Qed.

(** The loop on fuel runs the relation [splits], whatever it has
    accumulated, as soon as it has more fuel than characters. *)
Lemma split_loop_splits fuel : forall (text : str) parts,
  (length text < fuel)%nat ->
  exists segs, split_loop fuel text max_length parts = Some (parts ++ segs)
               /\ splits max_length text segs.
Proof.
  induction fuel as [|fuel IH]; intros text parts Hf; [lia|].
  simpl. destruct (Z.gtb_spec (len text) max_length) as [Hgt|Hle].
  - pose proof (rest_of_shorter text ltac:(lia)) as Hs.
    destruct (IH (rest_of text max_length) (parts ++ [segment_of text max_length])
                 ltac:(lia)) as [segs [E S]].
    exists (segment_of text max_length :: segs). split.
    + rewrite E. now rewrite <- app_assoc.
    + apply splits_cut; [lia | exact S].
  - destruct text as [|c r].
    + exists []. split; [now rewrite app_nil_r | constructor].
    + exists [c :: r]. split; [reflexivity|].
      apply splits_last; [discriminate | exact Hle].
Qed.

Lemma splits_functional (text : str) segs1 :
  splits max_length text segs1 ->
  forall segs2, splits max_length text segs2 -> segs1 = segs2.
Proof.
  induction 1 as [|text Hne Hle|text segs Hgt S IH]; intros segs2 H2.
  - inversion H2 as [|t Hn Hl|t sg Hg Hs]; subst; try reflexivity.
    + now elim Hn.
    + unfold len in Hg. simpl in Hg. lia.
  - inversion H2 as [|t Hn Hl|t sg Hg Hs]; subst; try reflexivity.
    + now elim Hne.
    + lia.
  - inversion H2 as [|t Hn Hl|t sg Hg Hs]; subst.
    + unfold len in Hgt. simpl in Hgt. lia.
    + lia.
    + f_equal. now apply IH.
Qed.

Lemma split_message_splits (text : str) :
  exists segs, split_message text max_length = Some segs
               /\ splits max_length text segs.
Proof.
  unfold split_message.
  destruct (split_loop_splits (S (length text)) text [] ltac:(lia)) as [segs [E S]].
  exists segs. split; [exact E | exact S].
Qed.

Lemma splits_bounded (text : str) segs :
  splits max_length text segs -> Forall (fun s => len s <= max_length) segs.
Proof.
  induction 1 as [|text Hne Hle|text segs Hgt S IH].
  - constructor.
  - constructor; [exact Hle | constructor].
  - constructor; [apply segment_of_bounded | exact IH].
Qed.

(** One iteration takes the text apart into the segment, a run of
    whitespace and the rest. *)
Lemma iteration_parts (text : str) :
  exists gap, all_space gap /\
    text = segment_of text max_length ++ gap ++ rest_of text max_length.
Proof.
  unfold segment_of, rest_of.
  set (sp := split_pos text max_length).
  exists (trailing_ws (slice_to text sp) ++ leading_ws (slice_from text sp)).
  split.
  - apply Forall_app. split; [apply trailing_ws_space | apply leading_ws_space].
  - rewrite <- app_assoc, (app_assoc (rstrip _)), rstrip_split.
    rewrite lstrip_split. symmetry. apply slice_join.
Qed.

Lemma splits_nil_inv (text : str) : splits max_length text [] -> text = [].
Proof. now inversion 1. Qed.

Lemma splits_weave (text : str) segs :
  splits max_length text segs ->
  exists gaps, Forall all_space gaps
    /\ (length gaps = length segs \/ S (length gaps) = length segs)
    /\ text = weave segs gaps.
Proof.
  induction 1 as [|text Hne Hle|text segs Hgt S [gaps [Hsp [Hlen Hw]]]].
  - exists []. repeat split; auto.
  - exists []. repeat split; auto. simpl. now rewrite app_nil_r.
  - destruct (iteration_parts text) as [gap [Hg Ht]].
    destruct segs as [|s ss].
    + exists [gap]. split; [repeat constructor; exact Hg|].
      split; [left; reflexivity|].
      etransitivity; [exact Ht|]. rewrite (splits_nil_inv _ S). reflexivity.
    + exists (gap :: gaps). split; [constructor; assumption|]. split.
      * simpl. destruct Hlen as [Hl|Hl]; [left|right]; simpl in Hl; lia.
      * etransitivity; [exact Ht|]. rewrite Hw. reflexivity.
Qed.

Lemma splits_no_segments (text : str) segs :
  splits max_length text segs -> (segs = [] <-> text = []).
Proof.
  intros S. split.
  - intros ->. now apply splits_nil_inv.
  - intros ->. inversion S as [|t Hn Hl|t sg Hg Hs]; subst; try reflexivity.
    + now elim Hn.
    + unfold len in Hg. simpl in Hg. lia.
Qed.

Lemma remove_ws_weave (segs gaps : list str) :
  Forall all_space gaps ->
  remove_ws (weave segs gaps) = remove_ws (concat segs).
Proof.
  revert gaps. induction segs as [|s ss IH]; intros gaps Hg.
  - simpl. induction Hg as [|g gs Hs _ IHg]; simpl; [reflexivity|].
    now rewrite remove_ws_app, (remove_ws_space _ Hs).
  - destruct gaps as [|g gs]; simpl.
    + rewrite !remove_ws_app. f_equal. now apply IH.
    + inversion Hg as [|g' gs' Hs Hgs]; subst.
      rewrite !remove_ws_app, (remove_ws_space _ Hs). simpl. f_equal.
      now apply IH.
Qed.

End ChunkerFacts.

(** The chunker on small inputs: a cut at a space, a hard cut, a cut at
    the last newline although a space comes later. *)
Example split_at_space :
  split_message (u "hello world foo") 7 = Some [u "hello"; u "world"; u "foo"].
Proof. reflexivity. Qed.

Example split_hard :
  split_message (u "abcdef") 3 = Some [u "abc"; u "def"].
Proof. reflexivity. Qed.

Example split_at_newline :
  split_message (u "abcd" ++ [NL] ++ u "ef gh") 8
  = Some [u "abcd"; u "ef gh"].
Proof. reflexivity. Qed.

Example literal_code_points : u "查詢原因" = [26597; 35426; 21407; 22240]%N.
Proof. reflexivity. Qed.

(** C1.  For every text and every [max_length > 0], [split_message] returns
    a sequence of segments none of which is longer than [max_length]; the
    empty text gives the empty sequence; a non-empty text of length at most
    [max_length] gives the one segment that is the text itself. *)
Theorem split_message_bounded (text : str) (max_length : Z) :
  0 < max_length ->
  exists segs,
    split_message text max_length = Some segs
    /\ Forall (fun s => len s <= max_length) segs
    /\ (text = [] -> segs = [])
    /\ (text <> [] -> len text <= max_length -> segs = [text]).
Proof.
  intros Hpos.
  destruct (split_message_splits max_length Hpos text) as [segs [E S]].
  exists segs. split; [exact E|].
  split; [exact (splits_bounded max_length Hpos text segs S)|]. split.
  - intros ->. now apply (splits_no_segments max_length Hpos [] segs S).
  - intros Hne Hle. apply (splits_functional max_length Hpos text segs S).
    now apply splits_last.
Qed.

Lemma split_message_bounded_witness :
  split_message (u "PMBOK 6") 7 = Some [u "PMBOK 6"].
Proof.
  destruct (split_message_bounded (u "PMBOK 6") 7 eq_refl) as [segs [E [_ [_ H]]]].
  rewrite E. f_equal. apply H; [discriminate | vm_compute; discriminate].
Defined.

(** C3.  For every text and every [max_length > 0], the text is the
    segments of [split_message] with a run of whitespace (the characters
    trimmed at that cut, possibly none) after each segment that a cut
    ended: nothing else is dropped and nothing is duplicated.  Hence the
    segments with one separator put back at each cut read as the trimmed
    text does, whitespace apart. *)
Theorem split_message_keeps_content (text : str) (max_length : Z) :
  0 < max_length ->
  exists segs gaps,
    split_message text max_length = Some segs
    /\ (length gaps = length segs \/ S (length gaps) = length segs)
    /\ Forall all_space gaps
    /\ text = weave segs gaps
    /\ forall sep, isspace sep = true ->
         remove_ws (weave segs (map (fun _ => [sep]) gaps))
         = remove_ws (strip text).
Proof.
  intros Hpos.
  destruct (split_message_splits max_length Hpos text) as [segs [E S]].
  destruct (splits_weave max_length text segs S) as [gaps [Hg [Hl Hw]]].
  exists segs, gaps. repeat split; try assumption.
  intros sep Hsep. rewrite remove_ws_strip.
  transitivity (remove_ws (concat segs)).
  - apply remove_ws_weave. apply Forall_map. apply Forall_forall. intros g _.
    constructor; [exact Hsep | constructor].
  - rewrite Hw. symmetry. now apply remove_ws_weave.
Qed.

Lemma split_message_keeps_content_witness :
  exists segs gaps,
    split_message (u "hello world foo") 7 = Some segs
    /\ (length gaps = length segs \/ S (length gaps) = length segs)
    /\ Forall all_space gaps
    /\ u "hello world foo" = weave segs gaps
    /\ forall sep, isspace sep = true ->
         remove_ws (weave segs (map (fun _ => [sep]) gaps))
         = remove_ws (strip (u "hello world foo")).
Proof. apply split_message_keeps_content. reflexivity. Defined.

(** C5.  In every iteration of the loop on a text longer than
    [max_length], the cut is the place of the last newline within the first
    [max_length] characters, else of the last space within them, and
    [max_length] itself when that place lies before half of [max_length]
    (the integer half, [max_length // 2]) or there is none; the segment
    appended is the text before the cut without its trailing whitespace, and
    the loop goes on with the text from the cut without its leading
    whitespace. *)
Theorem split_iteration (text : str) (max_length : Z) (fuel : nat)
        (parts : list str) :
  0 < max_length ->
  len text > max_length ->
  let cut := split_pos text max_length in
  (forall k, cut_at text max_length k <-> k = cut)
  /\ right_trimmed (firstn (Z.to_nat cut) text) (segment_of text max_length)
  /\ left_trimmed (skipn (Z.to_nat cut) text) (rest_of text max_length)
  /\ split_loop (S fuel) text max_length parts
     = split_loop fuel (rest_of text max_length) max_length
                  (parts ++ [segment_of text max_length]).
Proof.
  intros Hpos Hlen cut. pose proof (split_pos_bounds max_length Hpos text) as Hb.
  split; [|split; [|split]].
  - intros k. split.
    + now apply (cut_at_split_pos max_length Hpos).
    + intros ->. now apply (split_pos_cut_at max_length Hpos).
  - unfold segment_of. rewrite slice_to_firstn by lia. apply rstrip_right_trimmed.
  - unfold rest_of. rewrite slice_from_skipn by lia. apply lstrip_left_trimmed.
  - simpl. destruct (Z.gtb_spec (len text) max_length); [reflexivity|lia].
Qed.

Lemma split_iteration_witness :
  split_loop 3 (u "hello world foo") 7 []
  = split_loop 2 (u "world foo") 7 [u "hello"].
Proof.
  exact (proj2 (proj2 (proj2
    (split_iteration (u "hello world foo") 7 2 [] eq_refl eq_refl)))).
Defined.

(** C6 (the code departs from it).  A text that begins with a space and
    is longer than [max_length] is cut into an empty first segment; under the
    limit of 1000 that [reply_long_text] passes, a text of 1001 spaces is cut
    into the single segment [""]. *)
Theorem split_message_empty_segment :
  split_message (u " a") 1 = Some [[]; u "a"]
  /\ split_message (repeat SP 1001) MAX_LINE_MESSAGE_LENGTH = Some [[]].
Proof. split; vm_compute; reflexivity. Qed.

(** The part of C6 that the code keeps: no segments at all only for the
    empty text. *)
Lemma split_message_no_segments (text : str) (max_length : Z) :
  0 < max_length ->
  (split_message text max_length = Some [] <-> text = []).
Proof.
  intros Hpos.
  destruct (split_message_splits max_length Hpos text) as [segs [E S]].
  rewrite E. split.
  - intros H. injection H as ->. now apply (splits_no_segments max_length Hpos text []).
  - intros Ht. f_equal. now apply (splits_no_segments max_length Hpos text segs).
Qed.

(** C10.  For every [max_length >= 1]: every iteration on a text longer
    than [max_length] cuts at a place that is positive, or at 0 on a first
    character that is whitespace, and leaves strictly less text than it
    found; and on every text the loop ends, with the same segments for any
    fuel above the length of the text. *)
Theorem split_message_total (max_length : Z) :
  1 <= max_length ->
  (forall text : str,
      len text > max_length ->
      let cut := split_pos text max_length in
      (0 < cut \/
       (cut = 0 /\ exists c r, text = c :: r /\ isspace c = true
                              /\ lstrip (c :: r) = lstrip r))
      /\ (length (rest_of text max_length) < length text)%nat)
  /\ (forall text : str,
        exists segs,
          split_message text max_length = Some segs
          /\ forall fuel, (length text < fuel)%nat ->
                          split_loop fuel text max_length [] = Some segs).
Proof.
  intros H1. assert (Hpos : 0 < max_length) by lia. split.
  - intros text Hlen cut. split; [|now apply rest_of_shorter].
    pose proof (split_pos_bounds max_length Hpos text) as Hb. fold cut in Hb.
    destruct (Z.eq_dec cut 0) as [H0|Hne]; [right|left; lia].
    split; [exact H0|].
    destruct (split_pos_zero max_length Hpos text H0) as [c [r [-> Hc]]].
    exists c, r. repeat split; [exact Hc|]. simpl. now rewrite Hc.
  - intros text.
    destruct (split_message_splits max_length Hpos text) as [segs [E S]].
    exists segs. split; [exact E|]. intros fuel Hf.
    destruct (split_loop_splits max_length Hpos fuel text [] Hf) as [segs' [E' S']].
    rewrite E'. f_equal. simpl. now apply (splits_functional max_length Hpos text).
Qed.

Lemma split_message_total_witness :
  exists segs,
    split_message (u "abcdef") 3 = Some segs
    /\ forall fuel, (length (u "abcdef") < fuel)%nat ->
                    split_loop fuel (u "abcdef") 3 [] = Some segs.
Proof.
  apply (proj2 (split_message_total 3 ltac:(lia))).
Defined.

(** Without the bound on [max_length] the loop need not end: at
    [max_length = 0] a text that begins with a letter is never shortened. *)
Remark split_loop_zero_runs_on (fuel : nat) (parts : list str) :
  split_loop fuel (u "a") 0 parts = None.
Proof.
  revert parts. induction fuel as [|fuel IH]; intros parts; [reflexivity|].
  change (split_loop (S fuel) (u "a") 0 parts)
    with (split_loop fuel (u "a") 0 (parts ++ [[]])).
  apply IH.
Qed.

(** ** Generation client *)

Section XaiFacts.

Variable E : Env.
Variable user_message : str.


Lemma requests_post_runs (w : world) :
  requests_post E user_message w =
  (match xai E with
   | NoAnswer => Hang
   | TransportError => Raise RequestException
   | Response status_code json => Ret (status_code, json)
   end, extend w [Post user_message]).
Proof.
  unfold requests_post, bind, emit. simpl. now destruct (xai E).
Qed.

(** A handler that always returns stops every exception. *)
Lemma try_except_stops {A} (m : M A) (h : exn -> M A) (w : world) :
  (forall e w1, exists a w2, h e w1 = (Ret a, w2)) ->
  forall e, fst (try_except m h w) <> Raise e.
Proof.
  intros Hh e. unfold try_except. destruct (m w) as [[a|e0|] w1]; simpl.
  - discriminate.
  - destruct (Hh e0 w1) as [a [w2 ->]]. discriminate.
  - discriminate.
Qed.

Lemma bind_no_hang {A B} (m : M A) (k : A -> M B) (w : world) :
  fst (m w) <> Hang ->
  (forall a w1, fst (k a w1) <> Hang) ->
  fst (bind m k w) <> Hang.
Proof.
  intros Hm Hk. unfold bind. destruct (m w) as [[a|e|] w1]; simpl in *.
  - apply Hk.
  - discriminate.
  - now elim Hm.
Qed.

Lemma try_except_no_hang {A} (m : M A) (h : exn -> M A) (w : world) :
  fst (m w) <> Hang ->
  (forall e w1, fst (h e w1) <> Hang) ->
  fst (try_except m h w) <> Hang.
Proof.
  intros Hm Hh. unfold try_except. destruct (m w) as [[a|e|] w1]; simpl in *.
  - discriminate.
  - apply Hh.
  - now elim Hm.
Qed.

Lemma py_get_no_hang v key default (w : world) :
  fst (py_get v key default w) <> Hang.
Proof.
  destruct v; try discriminate. simpl. destruct (assoc key d); discriminate.
Qed.

Lemma py_index0_no_hang v (w : world) : fst (py_index0 v w) <> Hang.
Proof. destruct v as [| | |[|c r]|[|x r]|]; discriminate. Qed.

Lemma call_xai_api_no_raise (w : world) e :
  fst (call_xai_api E user_message w) <> Raise e.
Proof.
  unfold call_xai_api. apply try_except_stops.
  intros e0 w1. eexists. eexists. reflexivity.
Qed.

Lemma call_xai_api_transport_error (w : world) :
  xai E = TransportError ->
  call_xai_api E user_message w =
  (Ret (PyStr FALLBACK_EXCEPTION),
   {| trace := trace w ++ [Post user_message;
                           Log ERROR "呼叫 x.ai API 時發生例外：%s"];
      current_requests := current_requests w |}).
Proof.
  intros Hx. unfold call_xai_api, try_except, bind at 1.
  rewrite requests_post_runs, Hx. unfold bind, log, emit, ret, extend. simpl.
  now rewrite <- app_assoc.
Qed.

Lemma call_xai_api_bad_status (w : world) status json :
  xai E = Response status json -> status <> 200 ->
  call_xai_api E user_message w =
  (Ret (PyStr FALLBACK_STATUS),
   {| trace := trace w ++ [Post user_message;
                           Log ERROR "x.ai API 回應錯誤，狀態碼: %s, 回應內容: %s"];
      current_requests := current_requests w |}).
Proof.
  intros Hx Hs. unfold call_xai_api, try_except, bind at 1.
  rewrite requests_post_runs, Hx. cbv beta iota. unfold fst at 1.
  replace (status =? 200) with false by (symmetry; now apply Z.eqb_neq).
  unfold bind, log, emit, ret, extend. simpl. now rewrite <- app_assoc.
Qed.

Lemma call_xai_api_answer (w : world) d first others m content :
  xai E = Response 200 (Some (PyDict d)) ->
  assoc (u "choices") d = Some (PyList (PyDict first :: others)) ->
  assoc (u "message") first = Some (PyDict m) ->
  assoc (u "content") m = Some content ->
  call_xai_api E user_message w = (Ret content, extend w [Post user_message]).
Proof.
  intros Hx Hc Hm Ht. unfold call_xai_api, try_except, bind at 1.
  rewrite requests_post_runs, Hx. cbv beta iota. unfold fst at 1, snd at 1.
  change (200 =? 200) with true. cbv iota.
  unfold response_json, py_get, py_index0, bind, ret.
  rewrite Hc. cbv beta iota. rewrite Hm. cbv beta iota. rewrite Ht.
  reflexivity.
Qed.

Lemma call_xai_api_bad_body (w : world) :
  xai E = Response 200 None ->
  call_xai_api E user_message w =
  (Ret (PyStr FALLBACK_EXCEPTION),
   {| trace := trace w ++ [Post user_message;
                           Log ERROR "呼叫 x.ai API 時發生例外：%s"];
      current_requests := current_requests w |}).
Proof.
  intros Hx. unfold call_xai_api, try_except, bind at 1.
  rewrite requests_post_runs, Hx. unfold bind, log, emit, ret, extend. simpl.
  now rewrite <- app_assoc.
Qed.

(** The call ends as soon as x.ai answers or the transport fails. *)
Lemma call_xai_api_no_hang (w : world) :
  xai E <> NoAnswer -> fst (call_xai_api E user_message w) <> Hang.
Proof.
  intros Hx. unfold call_xai_api.
  apply try_except_no_hang; [|intros e w1; discriminate].
  apply bind_no_hang.
  - rewrite requests_post_runs. destruct (xai E); [now elim Hx| |]; discriminate.
  - intros [status json] w1. cbv beta iota. unfold fst at 2, snd at 1.
    destruct (status =? 200); [|discriminate].
    apply bind_no_hang; [destruct json; discriminate|].
    intros result w2. apply bind_no_hang; [apply py_get_no_hang|].
    intros choices w3. apply bind_no_hang; [apply py_index0_no_hang|].
    intros first w4. apply bind_no_hang; [apply py_get_no_hang|].
    intros message w5. apply py_get_no_hang.
Qed.

Lemma call_xai_api_returns (w : world) :
  xai E <> NoAnswer ->
  exists r w', call_xai_api E user_message w = (Ret r, w').
Proof.
  intros Hx. destruct (call_xai_api E user_message w) as [[r|e|] w'] eqn:Hc.
  - now exists r, w'.
  - elim (call_xai_api_no_raise w e). now rewrite Hc.
  - elim (call_xai_api_no_hang w Hx). now rewrite Hc.
Qed.

End XaiFacts.

(** C7.  For every user message and whatever x.ai and the transport do,
    [call_xai_api] raises nothing; on status 200 with an answer at
    [choices[0].message.content] it returns that answer; on any other status
    and on a transport exception it returns the fallback message of that
    case and logs one record at error level. *)
Theorem call_xai_api_recovers (E : Env) (user_message : str) (w : world) :
  (forall e, fst (call_xai_api E user_message w) <> Raise e)
  /\ (forall d first others m content,
        xai E = Response 200 (Some (PyDict d)) ->
        assoc (u "choices") d = Some (PyList (PyDict first :: others)) ->
        assoc (u "message") first = Some (PyDict m) ->
        assoc (u "content") m = Some content ->
        fst (call_xai_api E user_message w) = Ret content
        /\ filter is_error_log (trace (snd (call_xai_api E user_message w)))
           = filter is_error_log (trace w))
  /\ (forall status json,
        xai E = Response status json -> status <> 200 ->
        fst (call_xai_api E user_message w) = Ret (PyStr FALLBACK_STATUS)
        /\ added w (snd (call_xai_api E user_message w))
                 [Post user_message;
                  Log ERROR "x.ai API 回應錯誤，狀態碼: %s, 回應內容: %s"])
  /\ (xai E = TransportError ->
      fst (call_xai_api E user_message w) = Ret (PyStr FALLBACK_EXCEPTION)
      /\ added w (snd (call_xai_api E user_message w))
               [Post user_message; Log ERROR "呼叫 x.ai API 時發生例外：%s"]).
Proof.
  split; [intros e; apply call_xai_api_no_raise|]. split; [|split].
  - intros d first others m content Hx Hc Hm Ht.
    rewrite (call_xai_api_answer E user_message w d first others m content Hx Hc Hm Ht).
    split; [reflexivity|]. simpl. rewrite filter_app. simpl. apply app_nil_r.
  - intros status json Hx Hs.
    rewrite (call_xai_api_bad_status E user_message w status json Hx Hs).
    split; reflexivity.
  - intros Hx. rewrite (call_xai_api_transport_error E user_message w Hx).
    split; reflexivity.
Qed.

Lemma call_xai_api_recovers_witness :
  fst (call_xai_api (Examples.answering (u "WBS") 100) (u "q") Examples.fresh)
  = Ret (PyStr (u "WBS"))
  /\ fst (call_xai_api (Examples.failing 503) (u "q") Examples.fresh)
     = Ret (PyStr FALLBACK_STATUS).
Proof.
  split.
  - refine (proj1 (proj1 (proj2
      (call_xai_api_recovers (Examples.answering (u "WBS") 100) (u "q")
                             Examples.fresh)) _ _ _ _ _ eq_refl _ _ _));
      reflexivity.
  - refine (proj1 (proj1 (proj2 (proj2
      (call_xai_api_recovers (Examples.failing 503) (u "q") Examples.fresh)))
      503 None eq_refl _)). discriminate.
Defined.

(** ** Delivery planner *)

Section DeliveryFacts.

Variable E : Env.
Variables reply_token user_id : str.

Lemma extend_extend (w : world) evs1 evs2 :
  extend (extend w evs1) evs2 = extend w (evs1 ++ evs2).
Proof. unfold extend. simpl. now rewrite app_assoc. Qed.

Lemma extend_nil (w : world) : extend w [] = w.
Proof. destruct w. unfold extend. simpl. now rewrite app_nil_r. Qed.

Lemma line_call_runs ev (w : world) :
  line_call E ev w =
  (if line_ok E (length (trace w)) then Ret tt else Raise LineBotApiError,
   extend w [ev]).
Proof. unfold line_call, extend. now destruct (line_ok E _). Qed.

Lemma emit_runs ev (w : world) : emit ev w = (Ret tt, extend w [ev]).
Proof. reflexivity. Qed.

Lemma log_runs lv format (w : world) :
  log lv format w = (Ret tt, extend w [Log lv format]).
Proof. reflexivity. Qed.

Lemma text_head_runs msg (w : world) :
  text_head msg w = (Ret tt, w) \/ text_head msg w = (Raise TypeError, w).
Proof. destruct msg; simpl; auto. Qed.

(** A round of the push loop makes its push, raises nothing and makes no
    other send, whether the push succeeds or not. *)
Lemma push_one_runs msg (w : world) :
  exists evs,
    push_one E user_id msg w = (Ret tt, extend w (PushMessage user_id msg :: evs))
    /\ sends evs = [].
Proof.
  unfold push_one, try_except, bind. rewrite line_call_runs.
  destruct (line_ok E (length (trace w))).
  - destruct (text_head_runs msg (extend w [PushMessage user_id msg])) as [-> | ->].
    + rewrite log_runs, emit_runs, !extend_extend.
      eexists. split; reflexivity.
    + rewrite log_runs, !extend_extend. eexists. split; reflexivity.
  - rewrite log_runs, !extend_extend. eexists. split; reflexivity.
Qed.

Lemma push_loop_runs msgs : forall w : world,
  exists evs,
    for_each msgs (push_one E user_id) w = (Ret tt, extend w evs)
    /\ sends evs = map (PushMessage user_id) msgs.
Proof.
  induction msgs as [|msg rest IH]; intros w.
  - exists []. split; [|reflexivity]. simpl. unfold ret. now rewrite extend_nil.
  - destruct (push_one_runs msg w) as [evs1 [E1 S1]].
    destruct (IH (extend w (PushMessage user_id msg :: evs1))) as [evs2 [E2 S2]].
    exists ((PushMessage user_id msg :: evs1) ++ evs2). split.
    + simpl for_each. unfold bind. rewrite E1, E2. now rewrite extend_extend.
    + unfold sends in *. rewrite filter_app. simpl. rewrite S1, S2. reflexivity.
Qed.

Lemma send_messages_runs messages (w : world) :
  exists evs,
    send_messages E reply_token user_id messages w = (Ret tt, extend w evs)
    /\ sends evs =
       if Z.of_nat (length messages) <=? 5
       then [ReplyMessage reply_token messages]
       else if line_ok E (length (trace w))
            then ReplyMessage reply_token (firstn 5 messages)
                 :: map (PushMessage user_id) (skipn 5 messages)
            else [ReplyMessage reply_token (firstn 5 messages)].
Proof.
  unfold send_messages, try_except.
  destruct (Z.of_nat (length messages) <=? 5).
  - unfold bind. rewrite line_call_runs. destruct (line_ok E _);
      rewrite log_runs, !extend_extend; eexists; split; reflexivity.
  - unfold bind at 1. rewrite line_call_runs. destruct (line_ok E _).
    + unfold bind at 1. rewrite log_runs, extend_extend.
      destruct (push_loop_runs (skipn 5 messages)
                  (extend w ([ReplyMessage reply_token (firstn 5 messages)] ++
                             [Log INFO "成功傳送前 5 條訊息 (reply_message)"])))
        as [evs [Ep Sp]].
      rewrite Ep. rewrite extend_extend. eexists. split; [reflexivity|].
      unfold sends in *. simpl. rewrite Sp. reflexivity.
    + rewrite log_runs, !extend_extend. eexists. split; reflexivity.
Qed.

(** Lines 149-164, event by event: the reply call comes first; what
    follows is the one ERROR record if it raised, and else the INFO record
    and the rounds of the push loop. *)
Lemma send_messages_exact messages (w : world) :
  exists after,
    send_messages E reply_token user_id messages w
    = (Ret tt,
       extend w (ReplyMessage reply_token (firstn 5 messages) :: after))
    /\ sends after
       = map (PushMessage user_id)
             (if line_ok E (length (trace w)) then skipn 5 messages else [])
    /\ (line_ok E (length (trace w)) = false ->
        after = [Log ERROR "回覆訊息失敗: %s"]).
Proof.
  unfold send_messages, try_except.
  destruct (Z.leb_spec (Z.of_nat (length messages)) 5) as [Hle|Hgt].
  - unfold bind. rewrite line_call_runs.
    rewrite (firstn_all2 (n := 5) messages) by lia.
    rewrite (skipn_all2 (n := 5) messages) by lia.
    destruct (line_ok E _); rewrite log_runs, !extend_extend;
      eexists; (split; [reflexivity|]); split;
      first [reflexivity | discriminate].
  - unfold bind at 1. rewrite line_call_runs. destruct (line_ok E _).
    + unfold bind at 1. rewrite log_runs, extend_extend.
      destruct (push_loop_runs (skipn 5 messages)
                  (extend w ([ReplyMessage reply_token (firstn 5 messages)] ++
                             [Log INFO "成功傳送前 5 條訊息 (reply_message)"])))
        as [evs [Ep Sp]].
      rewrite Ep. rewrite extend_extend. eexists. split; [reflexivity|].
      split; [|discriminate]. unfold sends in *. simpl. exact Sp.
    + rewrite log_runs, !extend_extend. eexists. split; [reflexivity|].
      split; reflexivity.
Qed.

(** On a text, [reply_long_text] sends the segments of [split_message]
    under the limit of 1000. *)
Lemma reply_long_text_str (text : str) (w : world) :
  exists segs,
    split_message text MAX_LINE_MESSAGE_LENGTH = Some segs
    /\ reply_long_text E reply_token user_id (PyStr text) w
       = send_messages E reply_token user_id (map PyStr segs) w.
Proof.
  destruct (split_message_splits MAX_LINE_MESSAGE_LENGTH eq_refl text)
    as [segs [Es _]].
  exists segs. split; [exact Es|].
  unfold reply_long_text, bind, split_message_dyn. rewrite Es. reflexivity.
Qed.

End DeliveryFacts.

(** C4, as stated, fails where LINE rejects the reply call: of six
    segments the first five go into the one reply call, and no push is made
    for the sixth. *)
Lemma reply_failure_stops_pushes :
  let tr := trace (snd (send_messages Examples.line_down Examples.token
                                      Examples.user Examples.six
                                      Examples.fresh)) in
  sends tr = [ReplyMessage Examples.token (firstn 5 Examples.six)]
  /\ sends tr <> ReplyMessage Examples.token (firstn 5 Examples.six)
                 :: map (PushMessage Examples.user) (skipn 5 Examples.six).
Proof. split; [reflexivity | discriminate]. Qed.

(** C4, amended.  [reply_long_text] hands the segments to lines 149-164,
    which raise nothing and, for every sequence of messages: make exactly one
    reply call with all of them and no push when there are at most 5; make
    one reply call with the first 5 when there are more, followed, if that
    call returns, by one push per remaining message in order (a failed push
    does not stop the next), and by no push if that call raises.  A reply
    call that raises is followed by one ERROR record of the failure and by
    nothing else. *)
Theorem send_messages_plan (E : Env) (reply_token user_id : str)
        (messages : list pyval) (w : world) :
  exists evs,
    send_messages E reply_token user_id messages w = (Ret tt, extend w evs)
    /\ ((length messages <= 5)%nat ->
        sends evs = [ReplyMessage reply_token messages])
    /\ ((5 < length messages)%nat ->
        line_ok E (length (trace w)) = true ->
        sends evs = ReplyMessage reply_token (firstn 5 messages)
                    :: map (PushMessage user_id) (skipn 5 messages))
    /\ ((5 < length messages)%nat ->
        line_ok E (length (trace w)) = false ->
        sends evs = [ReplyMessage reply_token (firstn 5 messages)])
    /\ (line_ok E (length (trace w)) = false ->
        evs = [ReplyMessage reply_token (firstn 5 messages);
               Log ERROR "回覆訊息失敗: %s"]).
Proof.
  destruct (send_messages_runs E reply_token user_id messages w) as [evs [Hr Hs]].
  exists evs. split; [exact Hr|].
  assert (Hlog : line_ok E (length (trace w)) = false ->
                 evs = [ReplyMessage reply_token (firstn 5 messages);
                        Log ERROR "回覆訊息失敗: %s"]).
  { intros Hko.
    destruct (send_messages_exact E reply_token user_id messages w)
      as [after [Hx [_ Ha]]].
    rewrite Hr, (Ha Hko) in Hx.
    assert (Ht : trace (extend w evs)
                 = trace (extend w [ReplyMessage reply_token (firstn 5 messages);
                                    Log ERROR "回覆訊息失敗: %s"]))
      by congruence.
    simpl in Ht. now apply app_inv_head in Ht. }
  destruct (Z.leb_spec (Z.of_nat (length messages)) 5) as [Hle|Hgt].
  - split; [intros _; exact Hs|]. split; [intros; lia|].
    split; [intros; lia | exact Hlog].
  - split; [intros; lia|].
    split; [intros _ Hok; rewrite Hok in Hs; exact Hs|].
    split; [intros _ Hok; rewrite Hok in Hs; exact Hs | exact Hlog].
Qed.

Lemma send_messages_plan_witness :
  exists evs,
    send_messages (Examples.answering [] 1) Examples.token Examples.user
                  Examples.seven Examples.fresh
    = (Ret tt, extend Examples.fresh evs)
    /\ sends evs = ReplyMessage Examples.token (firstn 5 Examples.seven)
                   :: map (PushMessage Examples.user) (skipn 5 Examples.seven).
Proof.
  destruct (send_messages_plan (Examples.answering [] 1) Examples.token
              Examples.user Examples.seven Examples.fresh)
    as [evs [H1 [_ [H2 _]]]].
  exists evs. split; [exact H1|]. apply H2; [simpl; lia | reflexivity].
Defined.

(** The two deliveries of the specification's examples: 3 segments, and 7
    segments. *)
Example three_segments :
  sends (trace (snd (send_messages (Examples.answering [] 1) Examples.token
                                   Examples.user Examples.three Examples.fresh)))
  = [ReplyMessage Examples.token Examples.three].
Proof. reflexivity. Qed.

Example seven_segments :
  sends (trace (snd (send_messages (Examples.answering [] 1) Examples.token
                                   Examples.user Examples.seven Examples.fresh)))
  = [ReplyMessage Examples.token
       [Examples.segment 49; Examples.segment 50; Examples.segment 51;
        Examples.segment 52; Examples.segment 53];
     PushMessage Examples.user (Examples.segment 54);
     PushMessage Examples.user (Examples.segment 55)].
Proof. reflexivity. Qed.

(** ** Request handler, one invocation *)

Create HintDb frame.

Section FrameFacts.

Lemma keeps_ret {A} (a : A) : keeps_counter (ret a).
Proof. intros w. reflexivity. Qed.

Lemma keeps_raise {A} e : keeps_counter (@raise A e).
Proof. intros w. reflexivity. Qed.

Lemma keeps_hang {A} : keeps_counter (@hang A).
Proof. intros w. reflexivity. Qed.

Lemma keeps_emit ev : keeps_counter (emit ev).
Proof. intros w. reflexivity. Qed.

Lemma keeps_log lv format : keeps_counter (log lv format).
Proof. intros w. reflexivity. Qed.

Lemma keeps_line_call E ev : keeps_counter (line_call E ev).
Proof. intros w. unfold line_call. now destruct (line_ok E _). Qed.

Lemma keeps_bind {A B} (m : M A) (k : A -> M B) :
  keeps_counter m -> (forall a, keeps_counter (k a)) -> keeps_counter (bind m k).
Proof.
  intros Hm Hk w. unfold bind. specialize (Hm w).
  destruct (m w) as [[a|e|] w1]; simpl in *; [|exact Hm|exact Hm].
  rewrite (Hk a w1). exact Hm.
Qed.

Lemma keeps_try_except {A} (m : M A) (h : exn -> M A) :
  keeps_counter m -> (forall e, keeps_counter (h e)) ->
  keeps_counter (try_except m h).
Proof.
  intros Hm Hh w. unfold try_except. specialize (Hm w).
  destruct (m w) as [[a|e|] w1]; simpl in *; [exact Hm| |exact Hm].
  rewrite (Hh e w1). exact Hm.
Qed.

Lemma keeps_for_each {A} (l : list A) (body : A -> M unit) :
  (forall a, keeps_counter (body a)) -> keeps_counter (for_each l body).
Proof.
  intros Hb. induction l as [|x r IH]; simpl.
  - apply keeps_ret.
  - apply keeps_bind; [apply Hb | intros _; exact IH].
Qed.

Lemma keeps_if {A} (b : bool) (m1 m2 : M A) :
  keeps_counter m1 -> keeps_counter m2 -> keeps_counter (if b then m1 else m2).
Proof. now destruct b. Qed.

Lemma keeps_thread_start (body : M container) :
  keeps_counter body -> keeps_counter (thread_start body).
Proof.
  intros Hb w. unfold thread_start. simpl.
  specialize (Hb {| trace := trace w ++ [ThreadStart];
                    current_requests := current_requests w |}).
  destruct (body _) as [[c|e|] w1]; simpl in *; exact Hb.
Qed.

End FrameFacts.

#[local] Hint Resolve keeps_ret keeps_raise keeps_hang keeps_emit keeps_log
  keeps_line_call keeps_bind keeps_try_except keeps_for_each keeps_if
  keeps_thread_start : frame.

Section HandlerFacts.

Variable E : Env.

Lemma keeps_py_get v key default : keeps_counter (py_get v key default).
Proof.
  destruct v; simpl; auto with frame. destruct (assoc key d); auto with frame.
Qed.

Lemma keeps_py_index0 v : keeps_counter (py_index0 v).
Proof. destruct v as [| | |[|c r]|[|x r]|]; simpl; auto with frame. Qed.

Lemma keeps_call_xai_api user_message :
  keeps_counter (call_xai_api E user_message).
Proof.
  unfold call_xai_api. apply keeps_try_except; [|auto with frame].
  apply keeps_bind.
  - unfold requests_post. apply keeps_bind; [auto with frame|].
    intros _. destruct (xai E); auto with frame.
  - intros [status json]. apply keeps_if; [|auto with frame].
    apply keeps_bind; [destruct json; simpl; auto with frame|].
    intros result. apply keeps_bind; [apply keeps_py_get|].
    intros choices. apply keeps_bind; [apply keeps_py_index0|].
    intros first. apply keeps_bind; [apply keeps_py_get|].
    intros message. apply keeps_py_get.
Qed.

Lemma keeps_get_api_response user_message :
  keeps_counter (get_api_response E user_message).
Proof.
  unfold get_api_response. apply keeps_try_except; [|auto with frame].
  apply keeps_bind; [apply keeps_call_xai_api | auto with frame].
Qed.

Lemma keeps_wait_for_thread ends : keeps_counter (wait_for_thread ends).
Proof.
  unfold wait_for_thread. apply keeps_bind; [auto with frame|]. intros _.
  apply keeps_if; [|auto with frame].
  apply keeps_bind; [auto with frame|]. intros _. destruct ends; auto with frame.
Qed.

Lemma keeps_await_response user_message :
  keeps_counter (await_response E user_message).
Proof.
  unfold await_response. apply keeps_bind.
  - apply keeps_thread_start, keeps_get_api_response.
  - intros left. apply keeps_bind; [apply keeps_wait_for_thread | auto with frame].
Qed.

Lemma keeps_send_loading_animation uid seconds :
  keeps_counter (send_loading_animation E uid seconds).
Proof. unfold send_loading_animation. auto 6 with frame. Qed.

Lemma keeps_push_one uid msg : keeps_counter (push_one E uid msg).
Proof.
  unfold push_one. apply keeps_try_except; [|auto with frame].
  apply keeps_bind; [auto with frame|]. intros _.
  apply keeps_bind; [destruct msg; simpl; auto with frame | auto 6 with frame].
Qed.

Lemma keeps_send_messages tok uid messages :
  keeps_counter (send_messages E tok uid messages).
Proof.
  unfold send_messages. apply keeps_try_except; [|auto with frame].
  apply keeps_if; [auto 6 with frame|].
  apply keeps_bind; [auto with frame|]. intros _.
  apply keeps_bind; [auto with frame|]. intros _.
  apply keeps_for_each. intros msg. apply keeps_push_one.
Qed.

Lemma keeps_split_message_dyn text max_length :
  keeps_counter (split_message_dyn text max_length).
Proof.
  destruct text; simpl; auto with frame.
  destruct (split_message s max_length); auto with frame.
Qed.

Lemma keeps_reply_long_text tok uid text :
  keeps_counter (reply_long_text E tok uid text).
Proof.
  unfold reply_long_text. apply keeps_bind; [apply keeps_split_message_dyn|].
  intros segments. apply keeps_send_messages.
Qed.

Lemma keeps_py_iadd_str x s : keeps_counter (py_iadd_str x s).
Proof. destruct x; simpl; auto with frame. Qed.

Lemma keeps_deliver_response event r : keeps_counter (deliver_response E event r).
Proof.
  unfold deliver_response. apply keeps_bind; [auto with frame|]. intros _.
  apply keeps_bind.
  - apply keeps_if; [apply keeps_py_iadd_str | auto with frame].
  - intros x. apply keeps_bind; [apply keeps_reply_long_text | auto with frame].
Qed.

(** Lines 211-237 never touch the counter. *)
Lemma keeps_guarded_work event : keeps_counter (guarded_work E event).
Proof.
  unfold guarded_work. apply keeps_bind; [auto with frame|]. intros _.
  apply keeps_bind; [apply keeps_send_loading_animation|]. intros _.
  apply keeps_bind; [apply keeps_await_response|].
  intros r. apply keeps_deliver_response.
Qed.

Lemma str_eqb_refl (x : str) : str_eqb x x = true.
Proof. unfold str_eqb. destruct (list_eq_dec N.eq_dec x x); congruence. Qed.

Lemma str_in_In (x : str) l : In x l -> str_in x l = true.
Proof.
  intros H. unfold str_in. apply existsb_exists. exists x.
  split; [exact H | apply str_eqb_refl].
Qed.

(** The shortcut of lines 192-197. *)
Lemma handle_message_why event (w : world) :
  In (strip (message_text event)) WHY_QUERIES ->
  handle_message E event w =
  (if line_ok E (length (trace w)) then Ret tt else Raise LineBotApiError,
   extend w [ReplyMessage (reply_token event) [PyStr WHY_REPLY]]).
Proof.
  intros H. unfold handle_message. rewrite (str_in_In _ _ H).
  apply line_call_runs.
Qed.

(** The refusal of lines 201-207. *)
Lemma handle_message_busy event (w : world) :
  str_in (strip (message_text event)) WHY_QUERIES = false ->
  current_requests w >= MAX_CONCURRENT_REQUESTS ->
  exists r,
    handle_message E event w =
    (r, extend w [Log INFO "系統繁忙：請求數量達上限";
                  ReplyMessage (reply_token event) [PyStr BUSY_REPLY]])
    /\ r <> Hang.
Proof.
  intros Hq Hc. unfold handle_message. rewrite Hq.
  unfold bind at 1, read_current_requests.
  destruct (Z.geb_spec (current_requests w) MAX_CONCURRENT_REQUESTS); [|lia].
  unfold bind. rewrite log_runs, line_call_runs, extend_extend.
  eexists. split; [reflexivity|]. destruct (line_ok E _); discriminate.
Qed.

(** Lines 208-240: once let in, the handler gives its ticket back on
    every way out of the guarded work. *)
Lemma handle_message_granted event (w : world) r w' :
  str_in (strip (message_text event)) WHY_QUERIES = false ->
  current_requests w < MAX_CONCURRENT_REQUESTS ->
  handle_message E event w = (r, w') ->
  (r <> Hang -> current_requests w' = current_requests w)
  /\ (r = Hang -> current_requests w' = current_requests w + 1).
Proof.
  intros Hq Hc. unfold handle_message. rewrite Hq.
  unfold bind at 1, read_current_requests.
  destruct (Z.geb_spec (current_requests w) MAX_CONCURRENT_REQUESTS); [lia|].
  unfold bind, write_current_requests, try_finally.
  pose proof (keeps_guarded_work event
                {| trace := trace w;
                   current_requests := current_requests w + 1 |}) as Hk.
  destruct (guarded_work E event _) as [[a|e|] w1]; simpl in Hk;
    unfold release, bind, read_current_requests, write_current_requests;
    intros Hr; injection Hr as <- <-; simpl; split; intros; try congruence; lia.
Qed.

End HandlerFacts.

Section AwaitFacts.

Variable E : Env.

Lemma send_loading_animation_returns uid seconds (w : world) :
  fst (send_loading_animation E uid seconds w) = Ret tt.
Proof.
  unfold send_loading_animation, try_except, bind. rewrite line_call_runs.
  now destruct (line_ok E _).
Qed.

Lemma get_api_response_runs user_message (w : world) r w1 :
  call_xai_api E user_message w = (Ret r, w1) ->
  get_api_response E user_message w = (Ret (Some r), w1).
Proof.
  intros Hc. unfold get_api_response, try_except, bind. now rewrite Hc.
Qed.

(** Both ways through lines 223-225 end after the thread has. *)
Lemma wait_for_thread_runs (w : world) :
  wait_for_thread (Some (xai_latency_ms E)) w
  = (Ret (xai_latency_ms E), extend w (waits E)).
Proof.
  unfold wait_for_thread, waits, bind. rewrite emit_runs.
  destruct (JOIN_TIMEOUT_MS <? xai_latency_ms E).
  - rewrite emit_runs, extend_extend. reflexivity.
  - reflexivity.
Qed.

Lemma await_response_runs user_message (w : world) r w1 :
  call_xai_api E user_message (extend w [ThreadStart]) = (Ret r, w1) ->
  await_response E user_message w = (Ret r, extend w1 (waits E)).
Proof.
  intros Hc. unfold await_response, bind at 1, thread_start.
  rewrite emit_runs, (get_api_response_runs _ _ _ _ Hc).
  unfold bind. rewrite wait_for_thread_runs. unfold ret, container_at.
  now rewrite Z.leb_refl.
Qed.

Lemma await_response_no_answer user_message (w : world) :
  xai E = NoAnswer ->
  await_response E user_message w =
  (Hang, extend w [ThreadStart; Post user_message;
                   Join (Some JOIN_TIMEOUT_MS); Join None]).
Proof.
  intros Hx. unfold await_response, bind at 1, thread_start.
  rewrite emit_runs. unfold get_api_response, try_except, bind at 1.
  unfold call_xai_api, try_except, bind at 1.
  rewrite requests_post_runs, Hx. unfold bind, wait_for_thread, bind.
  rewrite !emit_runs. unfold hang, extend. simpl. now rewrite <- !app_assoc.
Qed.

End AwaitFacts.

(** C9.  For every inbound message whose stripped text is one of the
    three queries, the handler makes the one canned reply and ends there: it
    makes no call to x.ai and leaves [current_requests] as it was. *)
Theorem why_query_shortcut (E : Env) (event : MessageEvent) (w : world) :
  In (strip (message_text event)) WHY_QUERIES ->
  let r := fst (handle_message E event w) in
  let w' := snd (handle_message E event w) in
  added w w' [ReplyMessage (reply_token event) [PyStr WHY_REPLY]]
  /\ r <> Hang
  /\ filter is_post (trace w') = filter is_post (trace w)
  /\ current_requests w' = current_requests w.
Proof.
  intros H r w'. subst r w'. rewrite (handle_message_why E event w H). simpl.
  split; [reflexivity|]. split; [destruct (line_ok E _); discriminate|].
  split; [|reflexivity]. rewrite filter_app. simpl. apply app_nil_r.
Qed.

Lemma why_query_shortcut_witness :
  added Examples.fresh
        (snd (handle_message (Examples.answering (u "WBS") 100)
                             Examples.why_event Examples.fresh))
        [ReplyMessage Examples.token [PyStr WHY_REPLY]].
Proof.
  refine (proj1 (why_query_shortcut (Examples.answering (u "WBS") 100)
                                    Examples.why_event Examples.fresh _)).
  left. reflexivity.
Defined.

(** ** Admission gate *)

Section GateFacts.

Import Gate.

(** Unfold the gate's definitions without touching the arithmetic. *)
Ltac gate_simpl :=
  cbn [ticket holder tickets holders app fst snd thread_step counter locked
       sh handlers local_ok is_done forallb andb] in *.

Lemma tickets_app l1 l2 : tickets (l1 ++ l2) = tickets l1 + tickets l2.
Proof. induction l1 as [|p r IH]; gate_simpl; [reflexivity|]. rewrite IH. lia. Qed.

Lemma holders_app l1 l2 : holders (l1 ++ l2) = holders l1 + holders l2.
Proof. induction l1 as [|p r IH]; gate_simpl; [reflexivity|]. rewrite IH. lia. Qed.

Lemma tickets_nonneg l : 0 <= tickets l.
Proof. induction l as [|p r IH]; gate_simpl; [lia|]. destruct p; gate_simpl; lia. Qed.

Lemma holders_nonneg l : 0 <= holders l.
Proof. induction l as [|p r IH]; gate_simpl; [lia|]. destruct p; gate_simpl; lia. Qed.

(** A handler outside the [with] blocks has no belief about the counter
    that a write could break. *)
Lemma local_ok_outside c p : holder p = 0 -> local_ok c p.
Proof. destruct p; gate_simpl; intros H; try exact I; discriminate. Qed.

Lemma local_ok_all_outside c l : holders l = 0 -> Forall (local_ok c) l.
Proof.
  induction l as [|p r IH]; gate_simpl; intros H; constructor.
  - apply local_ok_outside. pose proof (holders_nonneg r).
    destruct p; gate_simpl; lia.
  - apply IH. pose proof (holders_nonneg r). destruct p; gate_simpl; lia.
Qed.

Lemma tickets_done l : forallb is_done l = true -> tickets l = 0.
Proof.
  induction l as [|p r IH]; gate_simpl; [reflexivity|].
  destruct p; gate_simpl; try discriminate. intros H. rewrite (IH H). lia.
Qed.

(** [step_at] moves the handler it names and leaves the others. *)
Lemma step_at_spec ts : forall i s,
  (exists l1 p l2,
      ts = l1 ++ p :: l2 /\ length l1 = i
      /\ step_at i s ts
         = (fst (thread_step s p), l1 ++ snd (thread_step s p) :: l2))
  \/ ((length ts <= i)%nat /\ step_at i s ts = (s, ts)).
Proof.
  induction ts as [|t r IH]; intros i s.
  - right. split; [simpl; lia | reflexivity].
  - destruct i as [|j].
    + left. exists [], t, r. simpl. destruct (thread_step s t). auto.
    + destruct (IH j s) as [[l1 [p [l2 [-> [Hl Hs]]]]]|[Hl Hs]].
      * left. exists (t :: l1), p, l2. simpl. rewrite Hs. simpl. auto.
      * right. simpl. rewrite Hs. split; [lia | reflexivity].
Qed.

(** One step of one handler keeps the invariant. *)
Lemma thread_step_invariant s l1 p l2 :
  invariant {| sh := s; handlers := l1 ++ p :: l2 |} ->
  invariant {| sh := fst (thread_step s p);
               handlers := l1 ++ snd (thread_step s p) :: l2 |}.
Proof.
  intros [Ht Hl Hloc Hc]. gate_simpl.
  rewrite tickets_app in Ht. rewrite holders_app in Hl. gate_simpl.
  apply Forall_app in Hloc. destruct Hloc as [Hloc1 Hloc2].
  inversion Hloc2 as [|p' l2' Hp Hloc3]; subst p' l2'. clear Hloc2.
  pose proof (holders_nonneg l1) as Hn1. pose proof (holders_nonneg l2) as Hn2.
  assert (Hout : holder p = 1 ->
                 forall c, Forall (local_ok c) l1 /\ Forall (local_ok c) l2).
  { intros Hh c. destruct (locked s); split; apply local_ok_all_outside; lia. }
  destruct s as [c lk]. gate_simpl.
  destruct p as [[|]| | | | |v| | | | |v| |]; gate_simpl;
    try destruct lk; try destruct (Z.geb_spec c MAX_CONCURRENT_REQUESTS);
    gate_simpl;
    (constructor; gate_simpl;
     [ rewrite tickets_app; gate_simpl; lia
     | rewrite holders_app; gate_simpl; lia
     | apply Forall_app; split;
       [ first [ exact Hloc1 | apply Hout; reflexivity ]
       | constructor;
         [ gate_simpl; try exact I; try lia; auto
         | first [ exact Hloc3 | apply Hout; reflexivity ] ] ]
     | try lia ]).
Qed.

Lemma step_at_invariant i s :
  invariant s ->
  invariant {| sh := fst (step_at i (sh s) (handlers s));
               handlers := snd (step_at i (sh s) (handlers s)) |}.
Proof.
  intros Hinv. destruct s as [s ts]. simpl.
  destruct (step_at_spec ts i s) as [[l1 [p [l2 [-> [_ ->]]]]]|[_ ->]].
  - simpl. now apply thread_step_invariant.
  - exact Hinv.
Qed.

Lemma run_invariant schedule : forall s, invariant s -> invariant (run schedule s).
Proof.
  induction schedule as [|i rest IH]; intros s Hinv; simpl; [exact Hinv|].
  pose proof (step_at_invariant i s Hinv) as Hs.
  destruct (step_at i (sh s) (handlers s)) as [s' ts']. apply IH. exact Hs.
Qed.

Lemma init_invariant why_queries : invariant (init why_queries).
Proof.
  constructor; simpl.
  - induction why_queries as [|q r IH]; simpl; [reflexivity|]. now rewrite <- IH.
  - induction why_queries as [|q r IH]; simpl; [reflexivity|]. now rewrite <- IH.
  - apply Forall_forall. intros p Hp. apply in_map_iff in Hp.
    destruct Hp as [q [<- _]]. exact I.
  - unfold MAX_CONCURRENT_REQUESTS. lia.
Qed.

End GateFacts.

(** C2.  However the handlers are interleaved, [current_requests] stays
    within [0 .. MAX_CONCURRENT_REQUESTS] and equals the number of handlers
    that have incremented it and not yet decremented it; the test and the
    increment happen with the lock held, on a value below the ceiling; a
    refused handler leaves the counter as it was; a handler that was let in
    decrements it once on every way out of its guarded work, return or
    exception; so when all the handlers are done the counter is 0. *)
Theorem gate_keeps_ceiling (why_queries : list bool) (schedule : list nat) :
  let s := Gate.run schedule (Gate.init why_queries) in
  Gate.invariant s
  /\ 0 <= Gate.counter (Gate.sh s) <= MAX_CONCURRENT_REQUESTS
  /\ (forallb Gate.is_done (Gate.handlers s) = true ->
      Gate.counter (Gate.sh s) = 0)
  /\ (forall E event w,
        str_in (strip (message_text event)) WHY_QUERIES = false ->
        current_requests w >= MAX_CONCURRENT_REQUESTS ->
        current_requests (snd (handle_message E event w)) = current_requests w
        /\ filter is_post (trace (snd (handle_message E event w)))
           = filter is_post (trace w))
  /\ (forall E event w,
        fst (handle_message E event w) <> Hang ->
        current_requests (snd (handle_message E event w)) = current_requests w).
Proof.
  intros s.
  assert (Hinv : Gate.invariant s)
    by (apply run_invariant, init_invariant).
  split; [exact Hinv|]. destruct Hinv as [Ht Hl Hloc Hc].
  split; [split; [rewrite Ht; apply tickets_nonneg | exact Hc]|].
  split; [intros Hd; rewrite Ht; now apply tickets_done|].
  split.
  - intros E event w Hq Hb.
    destruct (handle_message_busy E event w Hq Hb) as [r [-> _]]. simpl.
    split; [reflexivity|]. rewrite filter_app. simpl. apply app_nil_r.
  - intros E event w Hr.
    destruct (str_in (strip (message_text event)) WHY_QUERIES) eqn:Hq.
    + unfold handle_message. rewrite Hq. apply keeps_line_call.
    + destruct (Z.lt_ge_cases (current_requests w) MAX_CONCURRENT_REQUESTS)
        as [Hlt|Hge].
      * destruct (handle_message E event w) as [r w'] eqn:Hh. simpl in *.
        now apply (handle_message_granted E event w r w' Hq Hlt Hh).
      * destruct (handle_message_busy E event w Hq ltac:(lia)) as [r [-> _]].
        reflexivity.
Qed.

Lemma gate_keeps_ceiling_witness :
  Gate.counter (Gate.sh (Gate.run Examples.two_handlers
                                  (Gate.init [false; false]))) = 0.
Proof.
  refine (proj1 (proj2 (proj2
    (gate_keeps_ceiling [false; false] Examples.two_handlers))) _).
  reflexivity.
Defined.

(* ===================================================================== *)
(** * Further properties of the code *)
(* ===================================================================== *)

(** ** Chunker: limits, edges, sizes *)

Section ChunkerEdges.

Lemma lstrip_idempotent (s : str) : lstrip (lstrip s) = lstrip s.
Proof.
  destruct (lstrip s) as [|c r] eqn:E; [reflexivity|].
  simpl. now rewrite (lstrip_head s c r E).
Qed.

Lemma rest_of_zero (text : str) : rest_of text 0 = lstrip text.
Proof.
  unfold rest_of, split_pos, rfind. rewrite slice_to_firstn by lia.
  simpl. now rewrite slice_from_skipn by lia.
Qed.

Lemma lstrip_no_leading (s : str) : no_leading_ws s -> lstrip s = s.
Proof.
  destruct s as [|c r]; [reflexivity|]. intros H. simpl.
  now rewrite (H c r eq_refl).
Qed.

Lemma no_space_no_leading (s : str) : no_space s -> no_leading_ws s.
Proof.
  intros H c r ->. now inversion H.
Qed.

Lemma no_space_lstrip (s : str) : no_space s -> lstrip s = s.
Proof. intros H. now apply lstrip_no_leading, no_space_no_leading. Qed.

Lemma no_space_rstrip (s : str) : no_space s -> rstrip s = s.
Proof.
  intros H. unfold rstrip. rewrite no_space_lstrip.
  - apply rev_involutive.
  - unfold no_space. now apply Forall_rev.
Qed.

Lemma no_space_parts n (s : str) :
  no_space s -> no_space (firstn n s) /\ no_space (skipn n s).
Proof.
  intros H. unfold no_space in *. rewrite <- (firstn_skipn n s) in H.
  now apply Forall_app in H.
Qed.

Lemma no_space_not_in c (s : str) : isspace c = true -> no_space s -> ~ In c s.
Proof.
  intros Hc H Hin. pose proof (proj1 (Forall_forall _ _) H c Hin). congruence.
Qed.

End ChunkerEdges.

Section ChunkerSizes.

Variable max_length : Z.
Hypothesis max_length_pos : 0 < max_length.

(** A cut never falls before the integer half of the limit. *)
Lemma split_pos_lower (text : str) :
  max_length / 2 <= split_pos text max_length.
Proof.
  assert (max_length / 2 <= max_length)
    by (apply Z.div_le_upper_bound; lia).
  destruct (split_pos_cut_at max_length max_length_pos text); lia.
Qed.

Lemma rest_of_length (text : str) :
  len text > max_length ->
  len (rest_of text max_length) + split_pos text max_length <= len text.
Proof.
  intros Hlen. unfold rest_of, len in *.
  pose proof (split_pos_bounds max_length max_length_pos text) as Hb.
  rewrite slice_from_skipn by lia.
  pose proof (lstrip_length (skipn (Z.to_nat (split_pos text max_length)) text)) as Hl.
  rewrite length_skipn in Hl. lia.
Qed.

(** With [n >= 2] segments the text is longer than the limit plus
    [n - 2] half limits. *)
Lemma splits_length (text : str) segs :
  splits max_length text segs ->
  (2 <= length segs)%nat ->
  (Z.of_nat (length segs) - 2) * (max_length / 2) + max_length < len text.
Proof.
  induction 1 as [|text Hne Hle|text segs Hgt Hsp IH]; simpl length.
  - lia.
  - lia.
  - intros Hn. pose proof (rest_of_length text Hgt) as Hr.
    pose proof (split_pos_lower text) as Hs.
    destruct (Nat.le_gt_cases 2 (length segs)) as [H2|H2].
    + specialize (IH H2).
      replace (Z.of_nat (S (length segs)) - 2)
        with ((Z.of_nat (length segs) - 2) + 1) by lia.
      rewrite Z.mul_add_distr_r. lia.
    + assert (length segs = 1%nat) by lia.
      replace (Z.of_nat (S (length segs)) - 2) with 0 by lia. lia.
Qed.

(** On a text without whitespace every cut is a hard cut. *)
Lemma split_pos_no_space (text : str) :
  no_space text -> split_pos text max_length = max_length.
Proof.
  intros H. symmetry. apply (cut_at_split_pos max_length max_length_pos).
  apply cut_hard; apply no_space_not_in;
    try reflexivity; now apply no_space_parts.
Qed.

Lemma splits_no_space (text : str) segs :
  splits max_length text segs ->
  no_space text ->
  concat segs = text
  /\ Forall (fun s => len s = max_length) (removelast segs)
  /\ Forall (fun s => s <> []) segs.
Proof.
  induction 1 as [|text Hne Hle|text segs Hgt Hsp IH]; intros Hns.
  - repeat split; constructor.
  - repeat split; simpl; [apply app_nil_r | constructor | now repeat constructor].
  - assert (Hseg : segment_of text max_length
                   = firstn (Z.to_nat max_length) text).
    { unfold segment_of. rewrite (split_pos_no_space text Hns).
      rewrite slice_to_firstn by lia.
      now apply no_space_rstrip, no_space_parts. }
    assert (Hrest : rest_of text max_length
                    = skipn (Z.to_nat max_length) text).
    { unfold rest_of. rewrite (split_pos_no_space text Hns).
      rewrite slice_from_skipn by lia.
      now apply no_space_lstrip, no_space_parts. }
    rewrite Hrest in Hsp, IH. rewrite Hseg.
    destruct (IH (proj2 (no_space_parts _ _ Hns))) as [Hc [Hl Hn]].
    assert (Hlen : len (firstn (Z.to_nat max_length) text) = max_length).
    { unfold len in *. rewrite length_firstn. lia. }
    split; [|split].
    + simpl. rewrite Hc. apply firstn_skipn.
    + destruct segs as [|s ss].
      * apply splits_nil_inv in Hsp.
        assert (length (skipn (Z.to_nat max_length) text) = 0%nat)
          by now rewrite Hsp.
        rewrite length_skipn in H. unfold len in Hgt. lia.
      * change (removelast (firstn (Z.to_nat max_length) text :: s :: ss))
          with (firstn (Z.to_nat max_length) text :: removelast (s :: ss)).
        constructor; assumption.
    + constructor; [|exact Hn]. intros E. rewrite E in Hlen.
      unfold len in Hlen. simpl in Hlen. lia.
Qed.

(** What [lstrip] and [rstrip] leave at the edges of the segments. *)
Lemma rstrip_no_trailing (s : str) : no_trailing_ws (rstrip s).
Proof. intros H. now apply rstrip_last. Qed.

Lemma rstrip_keeps_head (s : str) :
  no_leading_ws s -> no_leading_ws (rstrip s).
Proof.
  intros H c r E. pose proof (rstrip_split s) as Hs. rewrite E in Hs.
  apply (H c (r ++ trailing_ws s)). symmetry. exact Hs.
Qed.

Lemma firstn_keeps_head n (s : str) :
  no_leading_ws s -> no_leading_ws (firstn n s).
Proof.
  intros H c r E. destruct n as [|n]; [discriminate|].
  destruct s as [|x t]; [discriminate|]. simpl in E. injection E as -> _.
  now apply (H c t).
Qed.

Lemma segment_of_keeps_head (text : str) :
  no_leading_ws text -> no_leading_ws (segment_of text max_length).
Proof.
  intros H. unfold segment_of.
  pose proof (split_pos_bounds max_length max_length_pos text) as Hb.
  rewrite slice_to_firstn by lia. now apply rstrip_keeps_head, firstn_keeps_head.
Qed.

Lemma rest_of_no_leading (text : str) : no_leading_ws (rest_of text max_length).
Proof. intros c r E. unfold rest_of in E. exact (lstrip_head _ _ _ E). Qed.

Lemma splits_heads (text : str) segs :
  splits max_length text segs ->
  no_leading_ws text -> Forall no_leading_ws segs.
Proof.
  induction 1 as [|text Hne Hle|text segs Hgt Hsp IH]; intros H.
  - constructor.
  - now repeat constructor.
  - constructor; [now apply segment_of_keeps_head|].
    apply IH, rest_of_no_leading.
Qed.

Lemma splits_edges (text : str) segs :
  splits max_length text segs ->
  Forall no_trailing_ws (removelast segs) /\ Forall no_leading_ws (tl segs).
Proof.
  induction 1 as [|text Hne Hle|text segs Hgt Hsp [IHt IHl]].
  - split; constructor.
  - split; constructor.
  - split.
    + destruct segs as [|s ss]; [constructor|].
      change (removelast (segment_of text max_length :: s :: ss))
        with (segment_of text max_length :: removelast (s :: ss)).
      constructor; [apply rstrip_no_trailing | exact IHt].
    + simpl. apply (splits_heads _ _ Hsp), rest_of_no_leading.
Qed.

End ChunkerSizes.

(** X1.  The loop of [split_message] ends only under a positive limit:
    with a negative [max_length] it never ends, on any text; with
    [max_length = 0] it never ends on a text that holds a character other
    than whitespace, and turns a non-empty text of whitespace into the one
    segment [""]. *)
Theorem split_message_limit_edges :
  (forall max_length text fuel parts,
      max_length < 0 -> split_loop fuel text max_length parts = None)
  /\ (forall text fuel parts,
        lstrip text <> [] -> split_loop fuel text 0 parts = None)
  /\ (forall text,
        text <> [] -> lstrip text = [] -> split_message text 0 = Some [[]]).
Proof.
  split; [|split].
  - intros max_length text fuel parts Hneg. revert text parts.
    induction fuel as [|fuel IH]; intros text parts; [reflexivity|].
    simpl. destruct (Z.gtb_spec (len text) max_length) as [_|Hle].
    + apply IH.
    + unfold len in Hle. lia.
  - intros text fuel. revert text.
    induction fuel as [|fuel IH]; intros text parts Hl; [reflexivity|].
    simpl. destruct (Z.gtb_spec (len text) 0) as [_|Hle].
    + rewrite rest_of_zero. apply IH. now rewrite lstrip_idempotent.
    + destruct text; [now elim Hl | unfold len in Hle; simpl in Hle; lia].
  - intros text Hne Hl. unfold split_message.
    destruct text as [|c r]; [now elim Hne|].
    change (split_loop (S (length (c :: r))) (c :: r) 0 [])
      with (split_loop (S (length r)) (rest_of (c :: r) 0) 0
                       ([] ++ [segment_of (c :: r) 0])).
    rewrite rest_of_zero, Hl. reflexivity.
Qed.

Lemma split_message_limit_edges_witness :
  split_loop 9 (u "PMP") (-1) [] = None
  /\ split_loop 9 (u " PMP") 0 [] = None
  /\ split_message (u "  ") 0 = Some [[]].
Proof.
  destruct split_message_limit_edges as [H1 [H2 H3]].
  split; [|split].
  - apply H1. reflexivity.
  - apply H2. discriminate.
  - apply H3; [discriminate | reflexivity].
Defined.

(** X2.  A text without whitespace is cut into pieces of exactly
    [max_length] characters, but for the last; no piece is empty, and the
    pieces put end to end are the text. *)
Theorem split_message_hard_cuts (text : str) (max_length : Z) :
  0 < max_length ->
  no_space text ->
  exists segs,
    split_message text max_length = Some segs
    /\ concat segs = text
    /\ Forall (fun s => len s = max_length) (removelast segs)
    /\ Forall (fun s => s <> []) segs.
Proof.
  intros Hpos Hns.
  destruct (split_message_splits max_length Hpos text) as [segs [E S]].
  exists segs. split; [exact E|].
  exact (splits_no_space max_length Hpos text segs S Hns).
Qed.

Lemma split_message_hard_cuts_witness :
  exists segs,
    split_message (u "abcdefgh") 3 = Some segs
    /\ concat segs = u "abcdefgh"
    /\ Forall (fun s => len s = 3) (removelast segs)
    /\ Forall (fun s => s <> []) segs.
Proof.
  apply split_message_hard_cuts; [reflexivity|].
  repeat constructor.
Defined.

(** X3.  No segment but the last ends with whitespace, and no segment
    but the first begins with whitespace. *)
Theorem split_message_trimmed_edges (text : str) (max_length : Z) :
  0 < max_length ->
  exists segs,
    split_message text max_length = Some segs
    /\ Forall no_trailing_ws (removelast segs)
    /\ Forall no_leading_ws (tl segs).
Proof.
  intros Hpos.
  destruct (split_message_splits max_length Hpos text) as [segs [E S]].
  exists segs. split; [exact E|].
  exact (splits_edges max_length Hpos text segs S).
Qed.

Lemma split_message_trimmed_edges_witness :
  exists segs,
    split_message (u " a  b  c ") 4 = Some segs
    /\ Forall no_trailing_ws (removelast segs)
    /\ Forall no_leading_ws (tl segs).
Proof. apply split_message_trimmed_edges. reflexivity. Defined.

(** X4.  A text cut into [n >= 2] segments is longer than [max_length]
    plus [n - 2] times the integer half of [max_length]: every cut but the
    last uses up at least half a limit, and the last one happens on more
    than a whole limit. *)
Theorem split_message_segment_count (text : str) (max_length : Z) :
  0 < max_length ->
  exists segs,
    split_message text max_length = Some segs
    /\ ((2 <= length segs)%nat ->
        (Z.of_nat (length segs) - 2) * (max_length / 2) + max_length
        < len text).
Proof.
  intros Hpos.
  destruct (split_message_splits max_length Hpos text) as [segs [E S]].
  exists segs. split; [exact E|].
  exact (splits_length max_length Hpos text segs S).
Qed.

Lemma split_message_segment_count_witness :
  exists segs,
    split_message (u "hello world foo") 7 = Some segs
    /\ ((2 <= length segs)%nat ->
        (Z.of_nat (length segs) - 2) * (7 / 2) + 7 < len (u "hello world foo")).
Proof. apply split_message_segment_count. reflexivity. Defined.

(** ** Generation client: missing keys, one request *)

Section XaiEdges.

Variable E : Env.
Variable user_message : str.

Lemma pure_ret {A} (a : A) : pure (ret a).
Proof. intros w. split; [reflexivity | discriminate]. Qed.

Lemma pure_raise {A} e : pure (@raise A e).
Proof. intros w. split; [reflexivity | discriminate]. Qed.

Lemma pure_bind {A B} (m : M A) (k : A -> M B) :
  pure m -> (forall a, pure (k a)) -> pure (bind m k).
Proof.
  intros Hm Hk w. unfold bind. destruct (Hm w) as [Hw Hh].
  destruct (m w) as [[a|e|] w1]; simpl in *; subst w1.
  - apply Hk.
  - split; [reflexivity | discriminate].
  - now elim Hh.
Qed.

Lemma pure_py_get v key default : pure (py_get v key default).
Proof.
  destruct v; simpl; try apply pure_raise.
  destruct (assoc key d); apply pure_ret.
Qed.

Lemma pure_py_index0 v : pure (py_index0 v).
Proof.
  destruct v as [| | |[|c r]|[|x r]|]; simpl;
    first [apply pure_ret | apply pure_raise].
Qed.

Lemma pure_response_json json : pure (response_json json).
Proof. destruct json; [apply pure_ret | apply pure_raise]. Qed.

(** Lines 114-115 read the body and write nothing. *)
Lemma pure_navigation json :
  pure (bind (response_json json) (fun result =>
        bind (py_get result (u "choices") (PyList [PyDict []])) (fun choices =>
        bind (py_index0 choices) (fun first =>
        bind (py_get first (u "message") (PyDict [])) (fun message =>
        py_get message (u "content") (PyStr [])))))).
Proof.
  apply pure_bind; [apply pure_response_json|]. intros result.
  apply pure_bind; [apply pure_py_get|]. intros choices.
  apply pure_bind; [apply pure_py_index0|]. intros first.
  apply pure_bind; [apply pure_py_get|]. intros message.
  apply pure_py_get.
Qed.

(** On status 200 the call returns what the navigation returns, and turns
    what it raises into the fallback with one ERROR record. *)
Lemma call_xai_api_ok_status (w : world) json :
  xai E = Response 200 json ->
  call_xai_api E user_message w =
  match fst (bind (response_json json) (fun result =>
             bind (py_get result (u "choices") (PyList [PyDict []])) (fun choices =>
             bind (py_index0 choices) (fun first =>
             bind (py_get first (u "message") (PyDict [])) (fun message =>
             py_get message (u "content") (PyStr [])))))
             (extend w [Post user_message])) with
  | Ret a => (Ret a, extend w [Post user_message])
  | _ => (Ret (PyStr FALLBACK_EXCEPTION),
          extend w [Post user_message; Log ERROR "呼叫 x.ai API 時發生例外：%s"])
  end.
Proof.
  intros Hx. unfold call_xai_api, try_except, bind at 1.
  rewrite requests_post_runs, Hx. cbv beta iota. unfold fst at 1, snd at 1.
  change (200 =? 200) with true. cbv iota.
  destruct (pure_navigation json (extend w [Post user_message])) as [Hw Hh].
  destruct (bind (response_json json) _ (extend w [Post user_message]))
    as [[a|e|] w1]; simpl in *; subst w1.
  - reflexivity.
  - unfold bind. rewrite log_runs, extend_extend. reflexivity.
  - now elim Hh.
Qed.

Lemma call_xai_api_trace (w : world) :
  exists logs,
    snd (call_xai_api E user_message w)
    = extend w (Post user_message :: logs)
    /\ (logs = [] \/ exists format, logs = [Log ERROR format]).
Proof.
  destruct (xai E) as [| |status json] eqn:Hx.
  - exists []. split; [|now left].
    unfold call_xai_api, try_except, bind at 1.
    now rewrite requests_post_runs, Hx.
  - eexists. rewrite (call_xai_api_transport_error E user_message w Hx).
    split; [reflexivity|]. right. eexists. reflexivity.
  - destruct (Z.eq_dec status 200) as [->|Hs].
    + rewrite (call_xai_api_ok_status w json Hx).
      destruct (fst _); eexists; (split; [reflexivity|]);
        first [now left | right; eexists; reflexivity].
    + eexists. rewrite (call_xai_api_bad_status E user_message w status json Hx Hs).
      split; [reflexivity|]. right. eexists. reflexivity.
Qed.

End XaiEdges.

(** X5.  On status 200 a key missing on the way to
    [choices[0].message.content] is not an error: [choices] absent, or
    [message] absent from the first choice, or [content] absent from the
    message, each gives the empty string and no log record.  An empty
    [choices] list, and a body that is not JSON, give the fallback text of
    the exception branch and one ERROR record. *)
Theorem call_xai_api_missing_keys (E : Env) (user_message : str) (w : world) :
  (forall d,
      xai E = Response 200 (Some (PyDict d)) ->
      assoc (u "choices") d = None ->
      call_xai_api E user_message w
      = (Ret (PyStr []), extend w [Post user_message]))
  /\ (forall d first others,
        xai E = Response 200 (Some (PyDict d)) ->
        assoc (u "choices") d = Some (PyList (PyDict first :: others)) ->
        assoc (u "message") first = None ->
        call_xai_api E user_message w
        = (Ret (PyStr []), extend w [Post user_message]))
  /\ (forall d first others m,
        xai E = Response 200 (Some (PyDict d)) ->
        assoc (u "choices") d = Some (PyList (PyDict first :: others)) ->
        assoc (u "message") first = Some (PyDict m) ->
        assoc (u "content") m = None ->
        call_xai_api E user_message w
        = (Ret (PyStr []), extend w [Post user_message]))
  /\ (forall d,
        xai E = Response 200 (Some (PyDict d)) ->
        assoc (u "choices") d = Some (PyList []) ->
        call_xai_api E user_message w
        = (Ret (PyStr FALLBACK_EXCEPTION),
           extend w [Post user_message;
                     Log ERROR "呼叫 x.ai API 時發生例外：%s"]))
  /\ (xai E = Response 200 None ->
      call_xai_api E user_message w
      = (Ret (PyStr FALLBACK_EXCEPTION),
         extend w [Post user_message;
                   Log ERROR "呼叫 x.ai API 時發生例外：%s"])).
Proof.
  split; [|split; [|split; [|split]]].
  - intros d Hx Hc. rewrite (call_xai_api_ok_status E user_message w _ Hx).
    unfold response_json, py_get, py_index0, bind, ret.
    rewrite Hc. reflexivity.
  - intros d first others Hx Hc Hm.
    rewrite (call_xai_api_ok_status E user_message w _ Hx).
    unfold response_json, py_get, py_index0, bind, ret.
    rewrite Hc. cbv beta iota. rewrite Hm. reflexivity.
  - intros d first others m Hx Hc Hm Ht.
    rewrite (call_xai_api_ok_status E user_message w _ Hx).
    unfold response_json, py_get, py_index0, bind, ret.
    rewrite Hc. cbv beta iota. rewrite Hm. cbv beta iota. rewrite Ht.
    reflexivity.
  - intros d Hx Hc. rewrite (call_xai_api_ok_status E user_message w _ Hx).
    unfold response_json, py_get, py_index0, bind, ret.
    rewrite Hc. reflexivity.
  - intros Hx. rewrite (call_xai_api_ok_status E user_message w _ Hx).
    reflexivity.
Qed.

Lemma call_xai_api_missing_keys_witness :
  call_xai_api (answering_json (PyDict [])) (u "q") Examples.fresh
  = (Ret (PyStr []), extend Examples.fresh [Post (u "q")])
  /\ call_xai_api (answering_json (PyDict [(u "choices", PyList [])]))
                  (u "q") Examples.fresh
     = (Ret (PyStr FALLBACK_EXCEPTION),
        extend Examples.fresh
               [Post (u "q"); Log ERROR "呼叫 x.ai API 時發生例外：%s"]).
Proof.
  split.
  - apply (proj1 (call_xai_api_missing_keys (answering_json (PyDict []))
                    (u "q") Examples.fresh) []); reflexivity.
  - apply (proj1 (proj2 (proj2 (proj2
             (call_xai_api_missing_keys
                (answering_json (PyDict [(u "choices", PyList [])]))
                (u "q") Examples.fresh))))
             [(u "choices", PyList [])]); reflexivity.
Defined.

(** X6.  Whatever x.ai does, one call of [call_xai_api] makes exactly one
    request, never a second one, makes no LINE call, writes at most one log
    record, which is then an ERROR record, and leaves [current_requests]
    alone. *)
Theorem call_xai_api_posts_once (E : Env) (user_message : str) (w : world) :
  exists logs,
    trace (snd (call_xai_api E user_message w))
    = trace w ++ Post user_message :: logs
    /\ (logs = [] \/ exists format, logs = [Log ERROR format])
    /\ current_requests (snd (call_xai_api E user_message w))
       = current_requests w.
Proof.
  destruct (call_xai_api_trace E user_message w) as [logs [Hs Hl]].
  exists logs. rewrite Hs. repeat split; [exact Hl].
Qed.

(** X7.  The body of the background thread stores exactly what
    [call_xai_api] returned and adds nothing of its own to the trace: its
    [except] branch, with the fallback text and the record of a thread
    error, is never taken, and the thread never dies of an exception. *)
Theorem get_api_response_stores_result (E : Env) (user_message : str)
        (w : world) :
  get_api_response E user_message w
  = (match fst (call_xai_api E user_message w) with
     | Ret r => Ret (Some r)
     | Raise e => Raise e
     | Hang => Hang
     end, snd (call_xai_api E user_message w))
  /\ forall e, fst (get_api_response E user_message w) <> Raise e.
Proof.
  pose proof (call_xai_api_no_raise E user_message w) as Hn.
  unfold get_api_response, try_except, bind.
  destruct (call_xai_api E user_message w) as [[r|e|] w1]; simpl in *.
  - split; [reflexivity | discriminate].
  - now elim (Hn e).
  - split; [reflexivity | discriminate].
Qed.

(** ** Request handler: what one event can put on the trace *)

Create HintDb trace.

Section AppendFacts.

Variable P : event -> Prop.

Lemma appends_ret {A} (a : A) : appends P (ret a).
Proof. intros w. exists []. split; [symmetry; apply app_nil_r | constructor]. Qed.

Lemma appends_raise {A} e : appends P (@raise A e).
Proof. intros w. exists []. split; [symmetry; apply app_nil_r | constructor]. Qed.

Lemma appends_hang {A} : appends P (@hang A).
Proof. intros w. exists []. split; [symmetry; apply app_nil_r | constructor]. Qed.

Lemma appends_emit ev : P ev -> appends P (emit ev).
Proof. intros H w. exists [ev]. split; [reflexivity | now constructor]. Qed.

Lemma appends_log lv format : P (Log lv format) -> appends P (log lv format).
Proof. apply appends_emit. Qed.

Lemma appends_line_call E ev : P ev -> appends P (line_call E ev).
Proof.
  intros H w. exists [ev]. rewrite line_call_runs.
  split; [reflexivity | now constructor].
Qed.

Lemma appends_bind {A B} (m : M A) (k : A -> M B) :
  appends P m -> (forall a, appends P (k a)) -> appends P (bind m k).
Proof.
  intros Hm Hk w. unfold bind. destruct (Hm w) as [evs [Ht Hp]].
  destruct (m w) as [[a|e|] w1]; simpl in *; try (exists evs; now split).
  destruct (Hk a w1) as [evs2 [Ht2 Hp2]].
  exists (evs ++ evs2). split; [|now apply Forall_app].
  now rewrite Ht2, Ht, app_assoc.
Qed.

Lemma appends_try_except {A} (m : M A) (h : exn -> M A) :
  appends P m -> (forall e, appends P (h e)) -> appends P (try_except m h).
Proof.
  intros Hm Hh w. unfold try_except. destruct (Hm w) as [evs [Ht Hp]].
  destruct (m w) as [[a|e|] w1]; simpl in *; try (exists evs; now split).
  destruct (Hh e w1) as [evs2 [Ht2 Hp2]].
  exists (evs ++ evs2). split; [|now apply Forall_app].
  now rewrite Ht2, Ht, app_assoc.
Qed.

Lemma appends_for_each {A} (l : list A) (body : A -> M unit) :
  (forall a, appends P (body a)) -> appends P (for_each l body).
Proof.
  intros Hb. induction l as [|x r IH]; simpl.
  - apply appends_ret.
  - apply appends_bind; [apply Hb | intros _; exact IH].
Qed.

Lemma appends_if {A} (b : bool) (m1 m2 : M A) :
  appends P m1 -> appends P m2 -> appends P (if b then m1 else m2).
Proof. now destruct b. Qed.

Lemma appends_pure {A} (m : M A) : pure m -> appends P m.
Proof.
  intros H w. destruct (H w) as [-> _]. exists [].
  split; [symmetry; apply app_nil_r | constructor].
Qed.

End AppendFacts.

#[local] Hint Resolve appends_ret appends_raise appends_hang appends_emit
  appends_log appends_line_call appends_bind appends_try_except
  appends_for_each appends_if : trace.
#[local] Hint Extern 1 (_ = false) => reflexivity : trace.

Section HandlerTrace.

Variable E : Env.

Lemma filter_none {A} (f : A -> bool) (l : list A) :
  Forall (fun x => f x = false) l -> filter f l = [].
Proof.
  induction 1 as [|x r Hx _ IH]; simpl; [reflexivity|]. now rewrite Hx.
Qed.

(** Lines 149-164 make no request to x.ai. *)
Lemma send_messages_no_post tok uid messages :
  appends (fun ev => is_post ev = false) (send_messages E tok uid messages).
Proof.
  unfold send_messages. apply appends_try_except; [|auto with trace].
  apply appends_if; [auto 6 with trace|].
  apply appends_bind; [auto with trace|]. intros _.
  apply appends_bind; [auto with trace|]. intros _.
  apply appends_for_each. intros msg. unfold push_one.
  apply appends_try_except; [|auto with trace].
  apply appends_bind; [auto with trace|]. intros _.
  apply appends_bind; [destruct msg; simpl; auto with trace|].
  auto 6 with trace.
Qed.

(** The sends of lines 149-164: the one reply, then pushes to the user. *)
Lemma send_messages_shape tok uid messages (w : world) :
  exists evs,
    send_messages E tok uid messages w = (Ret tt, extend w evs)
    /\ filter is_post evs = []
    /\ exists pushed,
         sends evs = ReplyMessage tok (firstn 5 messages)
                     :: map (PushMessage uid) pushed
         /\ (pushed = [] \/ pushed = skipn 5 messages)
         /\ (line_ok E (length (trace w)) = true -> pushed = skipn 5 messages).
Proof.
  destruct (send_messages_runs E tok uid messages w) as [evs [Hr Hs]].
  exists evs. split; [exact Hr|]. split.
  - destruct (send_messages_no_post tok uid messages w) as [evs' [Ht Hp]].
    rewrite Hr in Ht. simpl in Ht. apply app_inv_head in Ht. subst evs'.
    now apply filter_none.
  - destruct (Z.leb_spec (Z.of_nat (length messages)) 5) as [Hle|Hgt].
    + exists []. rewrite Hs, firstn_all2, skipn_all2 by lia. auto.
    + destruct (line_ok E (length (trace w))).
      * exists (skipn 5 messages). auto.
      * exists []. split; [exact Hs|]. split; [now left | discriminate].
Qed.

Lemma send_loading_animation_runs uid seconds (w : world) :
  exists record,
    send_loading_animation E uid seconds w
    = (Ret tt, extend w [ShowLoadingAnimation uid seconds; record])
    /\ is_log record = true.
Proof.
  unfold send_loading_animation, try_except, bind. rewrite line_call_runs.
  destruct (line_ok E _); rewrite log_runs, extend_extend;
    eexists; split; reflexivity.
Qed.

(** Lines 219-228: one thread, one request, the joins; no send. *)
Lemma await_response_trace user_message (w : world) :
  exists evs,
    snd (await_response E user_message w) = extend w evs
    /\ filter is_post evs = [Post user_message]
    /\ sends evs = []
    /\ forall e, fst (await_response E user_message w) <> Raise e.
Proof.
  destruct (call_xai_api_trace E user_message (extend w [ThreadStart]))
    as [logs [Hs Hl]].
  destruct (call_xai_api E user_message (extend w [ThreadStart]))
    as [[r|e|] wc] eqn:Hc; simpl in Hs; subst wc.
  - rewrite (await_response_runs E user_message w r _ Hc).
    rewrite !extend_extend. eexists. split; [reflexivity|].
    unfold waits.
    destruct Hl as [->|[format ->]];
      destruct (JOIN_TIMEOUT_MS <? xai_latency_ms E);
      repeat split; discriminate.
  - elim (call_xai_api_no_raise E user_message (extend w [ThreadStart]) e).
    now rewrite Hc.
  - assert (Ha : await_response E user_message w
                 = (Hang, extend (extend (extend w [ThreadStart])
                                         (Post user_message :: logs))
                                 [Join (Some JOIN_TIMEOUT_MS); Join None])).
    { unfold await_response, bind at 1, thread_start.
      rewrite emit_runs.
      rewrite (proj1 (get_api_response_stores_result E user_message _)), Hc.
      simpl fst. simpl snd. unfold bind, wait_for_thread, bind.
      rewrite !emit_runs, extend_extend. reflexivity. }
    rewrite Ha, !extend_extend. eexists. split; [reflexivity|].
    destruct Hl as [->|[format ->]]; repeat split; discriminate.
Qed.

Lemma pure_py_iadd_str x s : pure (py_iadd_str x s).
Proof. destruct x; simpl; first [apply pure_ret | apply pure_raise]. Qed.

Lemma split_message_dyn_world text max_length (w : world) :
  snd (split_message_dyn text max_length w) = w.
Proof.
  destruct text; simpl; try reflexivity.
  - now destruct (split_message s max_length).
  - now destruct (Z.of_nat (length l) >? max_length).
  - now destruct (Z.of_nat (length d) >? max_length).
Qed.

(** Lines 147-164 on any value. *)
Lemma reply_long_text_trace tok uid text (w : world) :
  exists evs,
    snd (reply_long_text E tok uid text w) = extend w evs
    /\ filter is_post evs = []
    /\ delivery_shape tok uid (sends evs).
Proof.
  unfold reply_long_text, bind.
  pose proof (split_message_dyn_world text MAX_LINE_MESSAGE_LENGTH w) as Hw.
  destruct (split_message_dyn text MAX_LINE_MESSAGE_LENGTH w)
    as [[segs|e|] w1]; simpl in Hw; subst w1.
  - destruct (send_messages_shape tok uid segs w)
      as [evs [Hr [Hp [pushed [Hs _]]]]].
    exists evs. rewrite Hr. split; [reflexivity|]. split; [exact Hp|].
    right. eauto.
  - exists []. rewrite extend_nil. repeat split. now left.
  - exists []. rewrite extend_nil. repeat split. now left.
Qed.

(** Lines 229-237. *)
Lemma deliver_response_trace event r (w : world) :
  exists evs,
    snd (deliver_response E event r w) = extend w evs
    /\ filter is_post evs = []
    /\ delivery_shape (reply_token event) (user_id event) (sends evs).
Proof.
  unfold deliver_response, bind at 1. rewrite log_runs. unfold bind at 1.
  set (w1 := extend w [Log INFO "x.ai response: %s"]).
  assert (Hpure : pure (if contains TRIGGER (strip (message_text event))
                        then py_iadd_str r ([NL; NL] ++ EXTRA_BLOCK)
                        else ret r)).
  { destruct (contains _ _); [apply pure_py_iadd_str | apply pure_ret]. }
  destruct (Hpure w1) as [Hw Hh].
  destruct ((if contains TRIGGER (strip (message_text event))
             then py_iadd_str r ([NL; NL] ++ EXTRA_BLOCK)
             else ret r) w1) as [[x|e|] w2]; simpl in Hw; subst w2.
  - destruct (reply_long_text_trace (reply_token event) (user_id event) x w1)
      as [evs [Hs [Hp Hd]]].
    unfold bind.
    destruct (reply_long_text E (reply_token event) (user_id event) x w1)
      as [[[]|e|] w3]; simpl in Hs; subst w3.
    + rewrite log_runs. subst w1. rewrite !extend_extend.
      eexists. split; [reflexivity|]. unfold sends in *.
      simpl app. simpl filter. rewrite !filter_app, Hp. simpl.
      rewrite app_nil_r. split; [reflexivity | exact Hd].
    + subst w1. rewrite !extend_extend. eexists. split; [reflexivity|].
      simpl. split; assumption.
    + subst w1. rewrite !extend_extend. eexists. split; [reflexivity|].
      simpl. split; assumption.
  - subst w1. eexists. split; [reflexivity|]. split; [reflexivity | now left].
  - now elim Hh.
Qed.

(** Lines 211-237 as the three stages they are. *)
Lemma guarded_work_runs event (w : world) :
  guarded_work E event w =
  match await_response E (strip (message_text event))
          (snd (send_loading_animation E (user_id event) 10
                  (extend w [Log INFO "Received message from %s: %s"]))) with
  | (Ret r, w3) => deliver_response E event r w3
  | (Raise e, w3) => (Raise e, w3)
  | (Hang, w3) => (Hang, w3)
  end.
Proof.
  unfold guarded_work, bind at 1. rewrite log_runs. unfold bind at 1.
  destruct (send_loading_animation_runs (user_id event) 10
              (extend w [Log INFO "Received message from %s: %s"]))
    as [record [-> _]].
  reflexivity.
Qed.

Lemma guarded_work_trace event (w : world) :
  exists evs,
    snd (guarded_work E event w) = extend w evs
    /\ filter is_post evs = [Post (strip (message_text event))]
    /\ delivery_shape (reply_token event) (user_id event) (sends evs).
Proof.
  rewrite guarded_work_runs.
  destruct (send_loading_animation_runs (user_id event) 10
              (extend w [Log INFO "Received message from %s: %s"]))
    as [record [-> Hrec]]. simpl snd.
  set (w2 := extend _ [ShowLoadingAnimation (user_id event) 10; record]).
  destruct (await_response_trace (strip (message_text event)) w2)
    as [evs1 [Hs1 [Hp1 [Hd1 Hn1]]]].
  assert (Hp0 : filter is_post [Log INFO "Received message from %s: %s";
                                ShowLoadingAnimation (user_id event) 10; record]
                = []).
  { destruct record; try discriminate; reflexivity. }
  assert (Hd0 : sends [Log INFO "Received message from %s: %s";
                       ShowLoadingAnimation (user_id event) 10; record] = []).
  { destruct record; try discriminate; reflexivity. }
  destruct (await_response E (strip (message_text event)) w2)
    as [[r|e|] w3]; simpl in Hs1; subst w3.
  - destruct (deliver_response_trace event r (extend w2 evs1))
      as [evs2 [Hs2 [Hp2 Hd2]]].
    rewrite Hs2. subst w2.
    exists ([Log INFO "Received message from %s: %s";
             ShowLoadingAnimation (user_id event) 10; record]
            ++ evs1 ++ evs2).
    split; [rewrite !extend_extend; reflexivity|].
    unfold sends in *. rewrite !filter_app.
    rewrite Hp0, Hd0, Hp1, Hd1, Hp2. simpl. split; [reflexivity | exact Hd2].
  - now elim (Hn1 e).
  - simpl snd. subst w2.
    exists ([Log INFO "Received message from %s: %s";
             ShowLoadingAnimation (user_id event) 10; record]
            ++ evs1).
    split; [rewrite !extend_extend; reflexivity|].
    unfold sends in *. rewrite !filter_app.
    rewrite Hp0, Hd0, Hp1, Hd1. simpl. split; [reflexivity | now left].
Qed.

(** Lines 208-240 around the guarded work: the result and the trace are
    those of the work, the counter that of before. *)
Lemma handle_message_lets_in_eq event (w : world) :
  admits event w = true ->
  handle_message E event w
  = try_finally (guarded_work E event) release
                {| trace := trace w;
                   current_requests := current_requests w + 1 |}.
Proof.
  unfold admits. intros Ha. apply andb_prop in Ha. destruct Ha as [Hq Hc].
  apply negb_true_iff in Hq. apply Z.ltb_lt in Hc.
  unfold handle_message. rewrite Hq.
  unfold bind at 1, read_current_requests.
  destruct (Z.geb_spec (current_requests w) MAX_CONCURRENT_REQUESTS); [lia|].
  reflexivity.
Qed.

Lemma handle_message_lets_in event (w : world) :
  admits event w = true ->
  fst (handle_message E event w)
  = fst (guarded_work E event {| trace := trace w;
                                 current_requests := current_requests w + 1 |})
  /\ trace (snd (handle_message E event w))
     = trace (snd (guarded_work E event
                     {| trace := trace w;
                        current_requests := current_requests w + 1 |})).
Proof.
  intros Ha. rewrite (handle_message_lets_in_eq event w Ha).
  unfold try_finally.
  destruct (guarded_work E event _) as [[a|e|] w1];
    unfold release, bind, read_current_requests, write_current_requests;
    simpl; split; reflexivity.
Qed.

Lemma handle_message_trace event (w : world) :
  exists evs,
    trace (snd (handle_message E event w)) = trace w ++ evs
    /\ filter is_post evs
       = (if admits event w then [Post (strip (message_text event))] else [])
    /\ delivery_shape (reply_token event) (user_id event) (sends evs).
Proof.
  destruct (admits event w) eqn:Ha.
  - destruct (handle_message_lets_in event w Ha) as [_ ->].
    destruct (guarded_work_trace event
                {| trace := trace w;
                   current_requests := current_requests w + 1 |})
      as [evs [Hs [Hp Hd]]].
    exists evs. rewrite Hs. simpl. repeat split; assumption.
  - unfold admits in Ha. apply andb_false_iff in Ha.
    destruct (str_in (strip (message_text event)) WHY_QUERIES) eqn:Hq.
    + unfold handle_message. rewrite Hq, line_call_runs.
      eexists. split; [reflexivity|]. split; [reflexivity|].
      right. exists [PyStr WHY_REPLY], []. reflexivity.
    + destruct Ha as [Ha|Ha]; [discriminate|]. apply Z.ltb_ge in Ha.
      destruct (handle_message_busy E event w Hq ltac:(lia)) as [r [-> _]].
      eexists. split; [reflexivity|]. split; [reflexivity|].
      right. exists [PyStr BUSY_REPLY], []. reflexivity.
Qed.

End HandlerTrace.

Section HandlerEnds.

Variable E : Env.

(** Lines 229-237 on a content that is no text. *)
Lemma deliver_response_not_text event r (w : world) :
  not_text r = true ->
  deliver_response E event r w
  = (Raise TypeError, extend w [Log INFO "x.ai response: %s"]).
Proof.
  intros Hr. unfold deliver_response, bind at 1. rewrite log_runs.
  unfold bind at 1.
  destruct (contains TRIGGER (strip (message_text event)));
    destruct r; try discriminate; reflexivity.
Qed.

(** What lines 211-228 do when x.ai answers with [content]. *)
Lemma guarded_work_answer event (w : world) d first others m content :
  xai E = Response 200 (Some (PyDict d)) ->
  assoc (u "choices") d = Some (PyList (PyDict first :: others)) ->
  assoc (u "message") first = Some (PyDict m) ->
  assoc (u "content") m = Some content ->
  exists evs,
    sends evs = []
    /\ guarded_work E event w = deliver_response E event content (extend w evs).
Proof.
  intros Hx Hc Hm Ht. rewrite guarded_work_runs.
  destruct (send_loading_animation_runs E (user_id event) 10
              (extend w [Log INFO "Received message from %s: %s"]))
    as [record [-> Hrec]]. simpl snd.
  rewrite (await_response_runs E _ _ content _
             (call_xai_api_answer E _ _ d first others m content Hx Hc Hm Ht)).
  rewrite !extend_extend. eexists. split; [|reflexivity].
  unfold waits.
  destruct record; try discriminate;
    destruct (JOIN_TIMEOUT_MS <? xai_latency_ms E); reflexivity.
Qed.

End HandlerEnds.

(** X8.  One handled event adds to the trace exactly one request to x.ai,
    carrying the stripped text of the message, when the handler lets the
    event in (no shortcut query, counter below the ceiling), and none when it
    does not; this holds whatever x.ai and LINE do, also when the loading
    animation fails and when the handler ends in an exception or never
    ends. *)
Theorem handle_message_requests (E : Env) (event : MessageEvent) (w : world) :
  exists evs,
    trace (snd (handle_message E event w)) = trace w ++ evs
    /\ filter is_post evs
       = (if admits event w then [Post (strip (message_text event))] else []).
Proof.
  destruct (handle_message_trace E event w) as [evs [Ht [Hp _]]].
  exists evs. now split.
Qed.

(** X9.  One handled event makes at most one reply call; that call comes
    before any push and carries the event's own reply token, and every push
    goes to the event's own user. *)
Theorem handle_message_one_reply (E : Env) (event : MessageEvent) (w : world) :
  exists evs,
    trace (snd (handle_message E event w)) = trace w ++ evs
    /\ delivery_shape (reply_token event) (user_id event) (sends evs).
Proof.
  destruct (handle_message_trace E event w) as [evs [Ht [_ Hd]]].
  exists evs. now split.
Qed.

(** X11.  When the handler lets the event in and x.ai answers 200 with a
    [content] that is JSON [null], a boolean or a number, the handler ends
    in a [TypeError] after giving its ticket back, and sends nothing to the
    user: no reply and no push. *)
Theorem handle_message_content_not_text (E : Env) (event : MessageEvent)
        (w : world) d first others m content :
  admits event w = true ->
  xai E = Response 200 (Some (PyDict d)) ->
  assoc (u "choices") d = Some (PyList (PyDict first :: others)) ->
  assoc (u "message") first = Some (PyDict m) ->
  assoc (u "content") m = Some content ->
  not_text content = true ->
  exists evs,
    fst (handle_message E event w) = Raise TypeError
    /\ current_requests (snd (handle_message E event w)) = current_requests w
    /\ trace (snd (handle_message E event w)) = trace w ++ evs
    /\ sends evs = [].
Proof.
  intros Ha Hx Hc Hm Ht Hn.
  set (w1 := {| trace := trace w; current_requests := current_requests w + 1 |}).
  destruct (guarded_work_answer E event w1 d first others m content
              Hx Hc Hm Ht) as [evs1 [Hs1 Hg]].
  exists (evs1 ++ [Log INFO "x.ai response: %s"]).
  rewrite (handle_message_lets_in_eq E event w Ha). fold w1.
  unfold try_finally.
  rewrite Hg, (deliver_response_not_text E event content _ Hn), extend_extend.
  unfold release, bind, read_current_requests, write_current_requests. simpl.
  split; [reflexivity|]. split; [lia|]. split; [reflexivity|].
  unfold sends in *. now rewrite filter_app, Hs1.
Qed.

Lemma handle_message_content_not_text_witness :
  exists evs,
    fst (handle_message (answering_json (body_with_content PyNone []))
                        Examples.question Examples.fresh) = Raise TypeError
    /\ current_requests
         (snd (handle_message (answering_json (body_with_content PyNone []))
                              Examples.question Examples.fresh))
       = current_requests Examples.fresh
    /\ trace (snd (handle_message (answering_json (body_with_content PyNone []))
                                  Examples.question Examples.fresh))
       = trace Examples.fresh ++ evs
    /\ sends evs = [].
Proof.
  eapply (handle_message_content_not_text
            (answering_json (body_with_content PyNone []))
            Examples.question Examples.fresh); reflexivity.
Defined.

(** X12.  A text of at most 3000 characters is cut into at most five
    segments, so [reply_long_text] delivers it by the reply call alone and
    never pushes; it returns normally whether the call succeeds or not.  The
    empty text gives a reply call that carries no message at all. *)
Theorem reply_long_text_short (E : Env) (reply_token user_id : str)
        (text : str) (w : world) :
  len text <= 3000 ->
  exists segs evs,
    split_message text MAX_LINE_MESSAGE_LENGTH = Some segs
    /\ (length segs <= 5)%nat
    /\ (text = [] -> segs = [])
    /\ reply_long_text E reply_token user_id (PyStr text) w
       = (Ret tt, extend w evs)
    /\ sends evs = [ReplyMessage reply_token (map PyStr segs)].
Proof.
  intros Hlen.
  destruct (split_message_splits MAX_LINE_MESSAGE_LENGTH eq_refl text)
    as [segs [Es Hsp]].
  assert (Hn : (length segs <= 5)%nat).
  { destruct (Nat.le_gt_cases (length segs) 5) as [H|H]; [exact H|].
    pose proof (splits_length MAX_LINE_MESSAGE_LENGTH eq_refl text segs Hsp
                  ltac:(lia)) as Hb.
    change (MAX_LINE_MESSAGE_LENGTH / 2) with 500 in Hb.
    unfold MAX_LINE_MESSAGE_LENGTH in Hb. lia. }
  destruct (send_messages_runs E reply_token user_id (map PyStr segs) w)
    as [evs [Hr Hs]].
  exists segs, evs. split; [exact Es|]. split; [exact Hn|]. split; [|split].
  - intros ->. now apply (splits_no_segments MAX_LINE_MESSAGE_LENGTH eq_refl
                            [] segs Hsp).
  - unfold reply_long_text, bind, split_message_dyn. rewrite Es. exact Hr.
  - rewrite Hs. rewrite length_map.
    destruct (Z.leb_spec (Z.of_nat (length segs)) 5); [reflexivity | lia].
Qed.

Lemma reply_long_text_short_witness :
  exists segs evs,
    split_message (u "WBS") MAX_LINE_MESSAGE_LENGTH = Some segs
    /\ (length segs <= 5)%nat
    /\ (u "WBS" = [] -> segs = [])
    /\ reply_long_text Examples.line_down Examples.token Examples.user
                       (PyStr (u "WBS")) Examples.fresh
       = (Ret tt, extend Examples.fresh evs)
    /\ sends evs = [ReplyMessage Examples.token (map PyStr segs)].
Proof.
  apply reply_long_text_short. vm_compute. discriminate.
Defined.

(** ** Admission gate: work in flight, no deadlock *)

Section GateProgress.

Import Gate.

Lemma in_flight_le_tickets ts : 0 <= in_flight ts <= tickets ts.
Proof.
  induction ts as [|p r IH]; cbn [in_flight tickets]; [lia|].
  destruct p; cbn [working ticket]; lia.
Qed.

Lemma run_app s1 : forall s2 st, run (s1 ++ s2) st = run s2 (run s1 st).
Proof.
  induction s1 as [|i r IH]; intros s2 st; simpl; [reflexivity|].
  destruct (step_at i (sh st) (handlers st)). apply IH.
Qed.

Lemma step_at_here l1 : forall s p l2,
  step_at (length l1) s (l1 ++ p :: l2)
  = (fst (thread_step s p), l1 ++ snd (thread_step s p) :: l2).
Proof.
  induction l1 as [|t r IH]; intros s p l2; simpl.
  - now destruct (thread_step s p).
  - now rewrite IH.
Qed.

(** Scheduling one handler [n] times in a row is [n] steps of that
    handler; the others stay where they are. *)
Lemma run_solo n : forall s p l1 l2,
  run (repeat (length l1) n) {| sh := s; handlers := l1 ++ p :: l2 |}
  = {| sh := fst (solo n s p); handlers := l1 ++ snd (solo n s p) :: l2 |}.
Proof.
  induction n as [|n IH]; intros s p l1 l2; [reflexivity|].
  simpl repeat. simpl run. rewrite step_at_here.
  rewrite IH. simpl solo. now destruct (thread_step s p).
Qed.

Lemma holders_split ts :
  holders ts = 1 ->
  exists l1 p l2, ts = l1 ++ p :: l2 /\ holder p = 1
                  /\ holders l1 = 0 /\ holders l2 = 0.
Proof.
  induction ts as [|t r IH]; cbn [holders]; [discriminate|].
  intros H. pose proof (holders_nonneg r) as Hr.
  assert (Ht : holder t = 0 \/ holder t = 1) by (destruct t; cbn [holder]; auto).
  destruct Ht as [Ht|Ht].
  - destruct (IH ltac:(lia)) as [l1 [p [l2 [-> [Hp [H1 H2]]]]]].
    exists (t :: l1), p, l2. cbn [holders].
    split; [reflexivity|]. split; [exact Hp|]. split; [lia | exact H2].
  - exists [], t, r. split; [reflexivity|]. split; [exact Ht|].
    split; [reflexivity | lia].
Qed.

End GateProgress.

(** X13.  However the handlers are interleaved, at no moment are more
    than [MAX_CONCURRENT_REQUESTS] of them inside the guarded work of lines
    211-237, where the request to x.ai is made. *)
Theorem gate_bounds_work_in_flight (why_queries : list bool)
        (schedule : list nat) :
  0 <= in_flight (Gate.handlers (Gate.run schedule (Gate.init why_queries)))
    <= MAX_CONCURRENT_REQUESTS.
Proof.
  pose proof (run_invariant schedule _ (init_invariant why_queries)) as Hinv.
  pose proof (in_flight_le_tickets
                (Gate.handlers (Gate.run schedule (Gate.init why_queries)))).
  pose proof (Gate.inv_tickets _ Hinv). pose proof (Gate.inv_ceiling _ Hinv).
  lia.
Qed.

(** ** Pushes are paced; a silent x.ai keeps the ticket *)

Section Pacing.

Variable E : Env.
Variables reply_token user_id : str.



End Pacing.



(** X16.  When the handler lets the event in and x.ai never answers, the
    handler never ends: it sends nothing to the user and never reaches its
    [finally] clause, so [current_requests] stays one above what it was. *)
Theorem handle_message_silent_xai (E : Env) (event : MessageEvent) (w : world) :
  admits event w = true ->
  xai E = NoAnswer ->
  exists evs,
    fst (handle_message E event w) = Hang
    /\ current_requests (snd (handle_message E event w))
       = current_requests w + 1
    /\ trace (snd (handle_message E event w)) = trace w ++ evs
    /\ sends evs = [].
Proof.
  intros Ha Hx.
  rewrite (handle_message_lets_in_eq E event w Ha).
  unfold try_finally. rewrite guarded_work_runs.
  destruct (send_loading_animation_runs E (user_id event) 10
              (extend {| trace := trace w;
                         current_requests := current_requests w + 1 |}
                      [Log INFO "Received message from %s: %s"]))
    as [record [-> Hrec]]. simpl snd.
  rewrite (await_response_no_answer E _ _ Hx), !extend_extend.
  eexists. simpl. split; [reflexivity|]. split; [reflexivity|].
  split; [reflexivity|]. destruct record; try discriminate; reflexivity.
Qed.

Lemma handle_message_silent_xai_witness :
  exists evs,
    fst (handle_message silent Examples.question Examples.fresh) = Hang
    /\ current_requests (snd (handle_message silent Examples.question
                                             Examples.fresh))
       = current_requests Examples.fresh + 1
    /\ trace (snd (handle_message silent Examples.question Examples.fresh))
       = trace Examples.fresh ++ evs
    /\ sends evs = [].
Proof.
  apply handle_message_silent_xai; reflexivity.
Defined.

(** ** A text answer, from the thread to the reply call *)

Section TextAnswers.

Variable E : Env.

Lemma steady_ret {A} (a : A) : steady (ret a).
Proof. intros w w'. reflexivity. Qed.

Lemma steady_raise {A} e : steady (@raise A e).
Proof. intros w w'. reflexivity. Qed.

Lemma steady_bind {A B} (m : M A) (k : A -> M B) :
  steady m -> (forall a, steady (k a)) -> steady (bind m k).
Proof.
  intros Hm Hk w w'. unfold bind. specialize (Hm w w').
  destruct (m w) as [[a|e|] w1]; destruct (m w') as [[a'|e'|] w1'];
    simpl in Hm; try discriminate; try (injection Hm as <-).
  - apply Hk.
  - reflexivity.
  - reflexivity.
Qed.

Lemma steady_py_get v key default : steady (py_get v key default).
Proof.
  destruct v; simpl; try apply steady_raise.
  destruct (assoc key d); apply steady_ret.
Qed.

Lemma steady_py_index0 v : steady (py_index0 v).
Proof.
  destruct v as [| | |[|c r]|[|x r]|]; simpl;
    first [apply steady_ret | apply steady_raise].
Qed.

Lemma steady_navigation json :
  steady (bind (response_json json) (fun result =>
          bind (py_get result (u "choices") (PyList [PyDict []])) (fun choices =>
          bind (py_index0 choices) (fun first =>
          bind (py_get first (u "message") (PyDict [])) (fun message =>
          py_get message (u "content") (PyStr [])))))).
Proof.
  apply steady_bind.
  - destruct json; [apply steady_ret | apply steady_raise].
  - intros result. apply steady_bind; [apply steady_py_get|].
    intros choices. apply steady_bind; [apply steady_py_index0|].
    intros first. apply steady_bind; [apply steady_py_get|].
    intros message. apply steady_py_get.
Qed.

Lemma call_xai_api_no_answer user_message (w : world) :
  xai E = NoAnswer ->
  call_xai_api E user_message w = (Hang, extend w [Post user_message]).
Proof.
  intros Hx. unfold call_xai_api, try_except, bind at 1.
  now rewrite requests_post_runs, Hx.
Qed.

(** What [call_xai_api] returns depends on x.ai alone, not on what
    happened before. *)
Lemma steady_call_xai_api user_message : steady (call_xai_api E user_message).
Proof.
  intros w w'. destruct (xai E) as [| |status json] eqn:Hx.
  - now rewrite !(call_xai_api_no_answer user_message _ Hx).
  - now rewrite !(call_xai_api_transport_error E user_message _ Hx).
  - destruct (Z.eq_dec status 200) as [->|Hs].
    + rewrite !(call_xai_api_ok_status E user_message _ json Hx).
      rewrite (steady_navigation json (extend w [Post user_message])
                                 (extend w' [Post user_message])).
      destruct (fst (bind (response_json json) _
                          (extend w' [Post user_message]))); reflexivity.
    + now rewrite !(call_xai_api_bad_status E user_message _ status json Hx Hs).
Qed.

(** Lines 219-228 when the call returns [r]: the thread, its request,
    the joins, and [r] read from the container. *)
Lemma await_response_result user_message (w w' : world) r :
  fst (call_xai_api E user_message w') = Ret r ->
  exists logs,
    await_response E user_message w
    = (Ret r, extend w (ThreadStart :: Post user_message :: logs ++ waits E))
    /\ filter is_join logs = []
    /\ sends logs = [].
Proof.
  intros Hr.
  rewrite (steady_call_xai_api user_message w' (extend w [ThreadStart])) in Hr.
  destruct (call_xai_api_trace E user_message (extend w [ThreadStart]))
    as [logs [Hs Hl]].
  exists logs.
  destruct (call_xai_api E user_message (extend w [ThreadStart]))
    as [rc wc] eqn:Hc. simpl in Hr, Hs. subst rc wc.
  rewrite (await_response_runs E user_message w r _ Hc), !extend_extend.
  split; [reflexivity|].
  destruct Hl as [->|[format ->]]; split; reflexivity.
Qed.

(** Lines 229-237 on a text, event by event. *)
Lemma deliver_response_text event t (w : world) :
  exists segs after,
    split_message (augmented (strip (message_text event)) t)
                  MAX_LINE_MESSAGE_LENGTH = Some segs
    /\ deliver_response E event (PyStr t) w
       = (Ret tt,
          extend w (Log INFO "x.ai response: %s"
                    :: ReplyMessage (reply_token event)
                                    (firstn 5 (map PyStr segs))
                    :: after))
    /\ sends after
       = map (PushMessage (user_id event))
             (if line_ok E (length (trace w ++ [Log INFO "x.ai response: %s"]))
              then skipn 5 (map PyStr segs) else []).
Proof.
  set (w1 := extend w [Log INFO "x.ai response: %s"]).
  destruct (reply_long_text_str E (reply_token event) (user_id event)
              (augmented (strip (message_text event)) t) w1)
    as [segs [Hsp Hr]].
  destruct (send_messages_exact E (reply_token event) (user_id event)
              (map PyStr segs) w1) as [after [Hs [Hsd _]]].
  exists segs, (after ++ [Log INFO "Reply sent successfully"]).
  split; [exact Hsp|]. split.
  - unfold deliver_response, bind at 1. rewrite log_runs. fold w1.
    unfold bind at 1.
    assert (Ha : (if contains TRIGGER (strip (message_text event))
                  then py_iadd_str (PyStr t) ([NL; NL] ++ EXTRA_BLOCK)
                  else ret (PyStr t)) w1
                 = (Ret (PyStr (augmented (strip (message_text event)) t)), w1)).
    { unfold augmented. now destruct (contains _ _). }
    rewrite Ha. unfold bind. rewrite Hr, Hs, log_runs. subst w1.
    now rewrite !extend_extend.
  - unfold sends in *. rewrite filter_app, Hsd. simpl. apply app_nil_r.
Qed.

(** Lines 211-237 when the call returns a text. *)
Lemma guarded_work_text event (w w' : world) t :
  fst (call_xai_api E (strip (message_text event)) w') = Ret (PyStr t) ->
  exists segs before after,
    split_message (augmented (strip (message_text event)) t)
                  MAX_LINE_MESSAGE_LENGTH = Some segs
    /\ guarded_work E event w
       = (Ret tt,
          extend w (before
                    ++ ReplyMessage (reply_token event)
                                    (firstn 5 (map PyStr segs))
                    :: after))
    /\ sends before = []
    /\ filter is_join before = waits E
    /\ sends after
       = map (PushMessage (user_id event))
             (if line_ok E (length (trace w ++ before))
              then skipn 5 (map PyStr segs) else []).
Proof.
  intros Hr. rewrite guarded_work_runs.
  destruct (send_loading_animation_runs E (user_id event) 10
              (extend w [Log INFO "Received message from %s: %s"]))
    as [record [-> Hrec]]. simpl snd.
  set (w2 := extend _ [ShowLoadingAnimation (user_id event) 10; record]).
  destruct (await_response_result (strip (message_text event)) w2 w'
              (PyStr t) Hr) as [logs [-> [Hj Hs]]].
  set (before := [Log INFO "Received message from %s: %s";
                  ShowLoadingAnimation (user_id event) 10; record]
                 ++ (ThreadStart :: Post (strip (message_text event))
                                 :: logs ++ waits E)
                 ++ [Log INFO "x.ai response: %s"]).
  assert (Hw : forall tail,
             extend (extend w2 (ThreadStart :: Post (strip (message_text event))
                                            :: logs ++ waits E))
                    (Log INFO "x.ai response: %s" :: tail)
             = extend w (before ++ tail)).
  { intros tail. subst w2 before. rewrite !extend_extend. f_equal.
    simpl. rewrite <- !app_assoc. reflexivity. }
  destruct (deliver_response_text event t
              (extend w2 (ThreadStart :: Post (strip (message_text event))
                                      :: logs ++ waits E)))
    as [segs [after [Hsp [Hd Hsa]]]].
  exists segs, before, after. split; [exact Hsp|]. split; [|split; [|split]].
  - rewrite Hd. now rewrite Hw.
  - subst before. unfold sends in *. rewrite !filter_app. simpl.
    rewrite filter_app, Hs.
    assert (Hwt : filter is_send (waits E) = []).
    { unfold waits. now destruct (JOIN_TIMEOUT_MS <? xai_latency_ms E). }
    rewrite Hwt. destruct record; try discriminate; reflexivity.
  - subst before. rewrite !filter_app. simpl. rewrite filter_app, Hj.
    assert (Hwt : filter is_join (waits E) = waits E).
    { unfold waits. now destruct (JOIN_TIMEOUT_MS <? xai_latency_ms E). }
    rewrite Hwt. destruct record; try discriminate.
    cbn [filter is_join app]. apply app_nil_r.
  - rewrite Hsa. f_equal.
    assert (Hlen : trace (extend w2 (ThreadStart
                                       :: Post (strip (message_text event))
                                       :: logs ++ waits E))
                   ++ [Log INFO "x.ai response: %s"]
                   = trace w ++ before).
    { specialize (Hw []). apply (f_equal trace) in Hw. simpl in Hw.
      rewrite app_nil_r in Hw. exact Hw. }
    now rewrite Hlen.
Qed.

(** Lines 189-240 when the event is let in and the call returns a
    text. *)
Lemma handle_message_text event (w w' : world) t :
  admits event w = true ->
  fst (call_xai_api E (strip (message_text event)) w') = Ret (PyStr t) ->
  exists segs before after,
    split_message (augmented (strip (message_text event)) t)
                  MAX_LINE_MESSAGE_LENGTH = Some segs
    /\ handle_message E event w
       = (Ret tt,
          extend w (before
                    ++ ReplyMessage (reply_token event)
                                    (firstn 5 (map PyStr segs))
                    :: after))
    /\ sends before = []
    /\ filter is_join before = waits E
    /\ sends after
       = map (PushMessage (user_id event))
             (if line_ok E (length (trace w ++ before))
              then skipn 5 (map PyStr segs) else []).
Proof.
  intros Ha Hr.
  destruct (guarded_work_text event
              {| trace := trace w; current_requests := current_requests w + 1 |}
              w' t Hr) as [segs [before [after [Hsp [Hg [Hb [Hj Hs]]]]]]].
  exists segs, before, after. split; [exact Hsp|].
  split; [|split; [exact Hb | split; [exact Hj | exact Hs]]].
  rewrite (handle_message_lets_in_eq E event w Ha).
  unfold try_finally. rewrite Hg.
  unfold release, bind, read_current_requests, write_current_requests, extend.
  simpl. do 2 f_equal. lia.
Qed.

End TextAnswers.

(** C8, as stated, fails on a message that contains the trigger: x.ai
    answers "WBS" after 20 seconds, the handler waits past the 15 seconds of
    the first join, and the one text it sends is not the call's result but
    that result followed by a blank line and the fixed block. *)
Lemma trigger_appends_block :
  fst (call_xai_api (Examples.answering (u "WBS") 20000)
                    (strip (message_text definition_question))
                    Examples.fresh)
  = Ret (PyStr (u "WBS"))
  /\ sends (trace (snd (handle_message (Examples.answering (u "WBS") 20000)
                                       definition_question Examples.fresh)))
     = [ReplyMessage Examples.token
          [PyStr (u "WBS" ++ [NL; NL] ++ EXTRA_BLOCK)]]
  /\ sends (trace (snd (handle_message (Examples.answering (u "WBS") 20000)
                                       definition_question Examples.fresh)))
     <> [ReplyMessage Examples.token [PyStr (u "WBS")]].
Proof.
  split; [reflexivity|]. split; [vm_compute; reflexivity|].
  vm_compute. discriminate.
Qed.

(** C8, amended.  When the handler lets the event in and the background
    call returns a text [t], then whatever the latency of the call, within
    the 15 seconds of the first join or beyond them: the handler returns
    normally; before it sends anything it makes the bounded join and, if the
    call is late, the unbounded join, and nothing cancels the call; the
    first thing it sends is the reply call with the first five segments of
    [t], followed by a blank line and the fixed block when the message
    contains the trigger, cut by [split_message] under the limit of 1000;
    the remaining segments are pushed in order if that reply call returns,
    and none is pushed if it raises.  No other text takes the place of
    [t]. *)
Theorem late_answer_is_delivered (E : Env) (event : MessageEvent)
        (w w' : world) (t : str) :
  admits event w = true ->
  fst (call_xai_api E (strip (message_text event)) w') = Ret (PyStr t) ->
  exists segs before after,
    split_message (augmented (strip (message_text event)) t)
                  MAX_LINE_MESSAGE_LENGTH = Some segs
    /\ fst (handle_message E event w) = Ret tt
    /\ trace (snd (handle_message E event w))
       = trace w ++ before
         ++ ReplyMessage (reply_token event) (firstn 5 (map PyStr segs))
         :: after
    /\ sends before = []
    /\ filter is_join before = waits E
    /\ sends after
       = map (PushMessage (user_id event))
             (if line_ok E (length (trace w ++ before))
              then skipn 5 (map PyStr segs) else []).
Proof.
  intros Ha Hr.
  destruct (handle_message_text E event w w' t Ha Hr)
    as [segs [before [after [Hsp [Hh [Hb [Hj Hs]]]]]]].
  exists segs, before, after. rewrite Hh. simpl.
  repeat split; assumption.
Qed.

Lemma late_answer_is_delivered_witness :
  exists segs before after,
    split_message (augmented (strip (message_text Examples.question))
                             (u "WBS"))
                  MAX_LINE_MESSAGE_LENGTH = Some segs
    /\ fst (handle_message (Examples.answering (u "WBS") 20000)
                           Examples.question Examples.fresh) = Ret tt
    /\ trace (snd (handle_message (Examples.answering (u "WBS") 20000)
                                  Examples.question Examples.fresh))
       = trace Examples.fresh ++ before
         ++ ReplyMessage (reply_token Examples.question)
                         (firstn 5 (map PyStr segs))
         :: after
    /\ sends before = []
    /\ filter is_join before = waits (Examples.answering (u "WBS") 20000)
    /\ sends after
       = map (PushMessage (user_id Examples.question))
             (if line_ok (Examples.answering (u "WBS") 20000)
                         (length (trace Examples.fresh ++ before))
              then skipn 5 (map PyStr segs) else []).
Proof.
  apply (late_answer_is_delivered (Examples.answering (u "WBS") 20000)
           Examples.question Examples.fresh Examples.fresh (u "WBS"));
    reflexivity.
Defined.

(** X10.  When the handler lets the event in and x.ai answers 200 with a
    text [t] at [choices[0].message.content], the handler returns normally
    with the counter as before, and what it sends is [t], followed by a
    blank line and the fixed block if the message contains the trigger, cut
    by [split_message] under the limit of 1000: first the reply call with
    the first five segments, then the remaining segments pushed in order if
    that reply call returned, and no push if it raised. *)
Theorem handle_message_delivers_answer (E : Env) (event : MessageEvent)
        (w : world) d first others m t :
  admits event w = true ->
  xai E = Response 200 (Some (PyDict d)) ->
  assoc (u "choices") d = Some (PyList (PyDict first :: others)) ->
  assoc (u "message") first = Some (PyDict m) ->
  assoc (u "content") m = Some (PyStr t) ->
  exists segs before after,
    split_message (augmented (strip (message_text event)) t)
                  MAX_LINE_MESSAGE_LENGTH = Some segs
    /\ fst (handle_message E event w) = Ret tt
    /\ current_requests (snd (handle_message E event w)) = current_requests w
    /\ trace (snd (handle_message E event w))
       = trace w ++ before
         ++ ReplyMessage (reply_token event) (firstn 5 (map PyStr segs))
         :: after
    /\ sends before = []
    /\ sends after
       = map (PushMessage (user_id event))
             (if line_ok E (length (trace w ++ before))
              then skipn 5 (map PyStr segs) else []).
Proof.
  intros Ha Hx Hc Hm Ht.
  assert (Hr : fst (call_xai_api E (strip (message_text event)) w)
               = Ret (PyStr t))
    by now rewrite (call_xai_api_answer E _ w d first others m (PyStr t)
                      Hx Hc Hm Ht).
  destruct (handle_message_text E event w w t Ha Hr)
    as [segs [before [after [Hsp [Hh [Hb [_ Hs]]]]]]].
  exists segs, before, after. rewrite Hh. simpl.
  repeat split; assumption.
Qed.

Lemma handle_message_delivers_answer_witness :
  exists segs before after,
    split_message (augmented (strip (message_text definition_question))
                             (u "WBS"))
                  MAX_LINE_MESSAGE_LENGTH = Some segs
    /\ fst (handle_message (Examples.answering (u "WBS") 100)
                           definition_question Examples.fresh) = Ret tt
    /\ current_requests
         (snd (handle_message (Examples.answering (u "WBS") 100)
                              definition_question Examples.fresh))
       = current_requests Examples.fresh
    /\ trace (snd (handle_message (Examples.answering (u "WBS") 100)
                                  definition_question Examples.fresh))
       = trace Examples.fresh ++ before
         ++ ReplyMessage (reply_token definition_question)
                         (firstn 5 (map PyStr segs))
         :: after
    /\ sends before = []
    /\ sends after
       = map (PushMessage (user_id definition_question))
             (if line_ok (Examples.answering (u "WBS") 100)
                         (length (trace Examples.fresh ++ before))
              then skipn 5 (map PyStr segs) else []).
Proof.
  eapply (handle_message_delivers_answer (Examples.answering (u "WBS") 100)
            definition_question Examples.fresh); reflexivity.
Defined.

(** ** Admission gate: the gate itself never blocks *)

Section GateRest.

Import Gate.

Lemma avoids_app s1 : forall s2 st,
  avoids_work (s1 ++ s2) st
  = avoids_work s1 st && avoids_work s2 (run s1 st).
Proof.
  induction s1 as [|i r IH]; intros s2 st; [reflexivity|].
  cbn [app avoids_work run].
  destruct (step_at i (sh st) (handlers st)) as [sh' ts'].
  rewrite IH. now rewrite andb_assoc.
Qed.

Lemma nth_error_here {A} (l1 : list A) p l2 :
  nth_error (l1 ++ p :: l2) (length l1) = Some p.
Proof. induction l1 as [|x r IH]; [reflexivity | exact IH]. Qed.

(** Scheduling one handler [n] times in a row steps no guarded work as
    long as that handler's own steps do not. *)
Lemma avoids_solo n : forall s p l1 l2,
  avoids_work (repeat (length l1) n) {| sh := s; handlers := l1 ++ p :: l2 |}
  = solo_avoids n s p.
Proof.
  induction n as [|n IH]; intros s p l1 l2; [reflexivity|].
  cbn [repeat avoids_work solo_avoids sh handlers].
  rewrite nth_error_here, step_at_here.
  destruct (thread_step s p) as [s' p'] eqn:Hst. cbn [fst snd].
  now rewrite IH.
Qed.

(** A handler that holds the lock, or finds it free, comes to rest by
    steps of its own, none of which ends a guarded work, and leaves the lock
    free: it reaches its end, or enters its guarded work. *)
Lemma solo_rests s p :
  (if locked s then 1 else 0) = holder p ->
  exists n c p',
    solo n s p = ({| counter := c; locked := false |}, p')
    /\ resting p' = true
    /\ solo_avoids n s p = true.
Proof.
  destruct s as [c lk]. intros Hl.
  destruct (c >=? MAX_CONCURRENT_REQUESTS) eqn:Hc;
    destruct p as [[|]| | | | |v| | | | |v| |]; destruct lk;
    cbn [locked holder] in Hl; try discriminate;
    first
      [ exists 0%nat; do 2 eexists;
        cbn [solo solo_avoids thread_step counter locked resting at_work
             negb andb];
        rewrite ?Hc;
        cbn [solo solo_avoids thread_step counter locked resting at_work
             negb andb];
        (split; [reflexivity|]); split; reflexivity
      | exists 1%nat; do 2 eexists;
        cbn [solo solo_avoids thread_step counter locked resting at_work
             negb andb];
        rewrite ?Hc;
        cbn [solo solo_avoids thread_step counter locked resting at_work
             negb andb];
        (split; [reflexivity|]); split; reflexivity
      | exists 2%nat; do 2 eexists;
        cbn [solo solo_avoids thread_step counter locked resting at_work
             negb andb];
        rewrite ?Hc;
        cbn [solo solo_avoids thread_step counter locked resting at_work
             negb andb];
        (split; [reflexivity|]); split; reflexivity
      | exists 3%nat; do 2 eexists;
        cbn [solo solo_avoids thread_step counter locked resting at_work
             negb andb];
        rewrite ?Hc;
        cbn [solo solo_avoids thread_step counter locked resting at_work
             negb andb];
        (split; [reflexivity|]); split; reflexivity
      | exists 4%nat; do 2 eexists;
        cbn [solo solo_avoids thread_step counter locked resting at_work
             negb andb];
        rewrite ?Hc;
        cbn [solo solo_avoids thread_step counter locked resting at_work
             negb andb];
        (split; [reflexivity|]); split; reflexivity
      | exists 5%nat; do 2 eexists;
        cbn [solo solo_avoids thread_step counter locked resting at_work
             negb andb];
        rewrite ?Hc;
        cbn [solo solo_avoids thread_step counter locked resting at_work
             negb andb];
        (split; [reflexivity|]); split; reflexivity
      | exists 6%nat; do 2 eexists;
        cbn [solo solo_avoids thread_step counter locked resting at_work
             negb andb];
        rewrite ?Hc;
        cbn [solo solo_avoids thread_step counter locked resting at_work
             negb andb];
        (split; [reflexivity|]); split; reflexivity ].
Qed.

Lemma resting_outside p : resting p = true -> holder p = 0.
Proof. destruct p; try discriminate; reflexivity. Qed.

(** With the lock free, the handlers can be brought to rest one after
    the other. *)
Lemma rest_all l2 : forall l1 s,
  locked s = false ->
  holders l2 = 0 ->
  exists schedule s' l2',
    run schedule {| sh := s; handlers := l1 ++ l2 |}
    = {| sh := s'; handlers := l1 ++ l2' |}
    /\ locked s' = false
    /\ forallb resting l2' = true
    /\ avoids_work schedule {| sh := s; handlers := l1 ++ l2 |} = true.
Proof.
  induction l2 as [|p r IH]; intros l1 s Hlk Hh.
  - exists [], s, []. repeat split; auto.
  - cbn [holders] in Hh. pose proof (holders_nonneg r) as Hr.
    assert (Hp : holder p = 0) by (destruct p; cbn [holder] in *; lia).
    destruct (solo_rests s p) as [n [c [p' [Hs [Hrest Hav]]]]];
      [rewrite Hlk, Hp; reflexivity|].
    destruct (IH (l1 ++ [p']) {| counter := c; locked := false |}
                 eq_refl ltac:(lia))
      as [sched [s' [r' [Hrun [Hlk' [Hall Havs]]]]]].
    rewrite <- !app_assoc in Hrun, Havs. cbn [app] in Hrun, Havs.
    exists (repeat (length l1) n ++ sched), s', (p' :: r').
    rewrite run_app, avoids_app, run_solo, avoids_solo, Hs. cbn [fst snd].
    rewrite Hrun, Hav, Havs. cbn [forallb]. rewrite Hrest, Hall.
    rewrite <- app_assoc. repeat split; auto.
Qed.

(** From a state that satisfies the invariant, every handler can be
    brought to rest without any guarded work ending. *)
Lemma invariant_can_rest st :
  invariant st ->
  exists schedule,
    avoids_work schedule st = true
    /\ forallb resting (handlers (run schedule st)) = true
    /\ locked (sh (run schedule st)) = false.
Proof.
  intros Hinv. destruct st as [s ts].
  pose proof (inv_lock _ Hinv) as Hl. cbn [sh handlers] in Hl.
  destruct (locked s) eqn:Hlk.
  - destruct (holders_split ts (eq_sym Hl)) as [l1 [p [l2 [-> [Hp [H1 H2]]]]]].
    destruct (solo_rests s p) as [n [c [p' [Hs [Hrest Hav]]]]];
      [rewrite Hlk, Hp; reflexivity|].
    destruct (rest_all (l1 ++ p' :: l2) [] {| counter := c; locked := false |}
                eq_refl) as [sched [s' [ts' [Hrun [Hlk' [Hall Havs]]]]]].
    { rewrite holders_app. cbn [holders].
      rewrite (resting_outside p' Hrest). lia. }
    cbn [app] in Hrun, Havs.
    exists (repeat (length l1) n ++ sched).
    rewrite run_app, avoids_app, run_solo, avoids_solo, Hs. cbn [fst snd].
    rewrite Hrun, Hav, Havs. cbn [sh handlers]. auto.
  - destruct (rest_all ts [] s Hlk (eq_sym Hl))
      as [sched [s' [ts' [Hrun [Hlk' [Hall Havs]]]]]].
    cbn [app] in Hrun, Havs.
    exists sched. rewrite Hrun, Havs. cbn [sh handlers]. auto.
Qed.

End GateRest.

(** X14.  The gate itself never blocks.  Whatever has happened so far,
    and without any guarded work having to end (no step of the continuation
    is taken by a handler inside lines 211-237), the schedule can be
    continued until every handler is either at its end or inside its guarded
    work, with the lock free: a handler waiting for the lock always gets it,
    and is then let in or refused, also while the work of other handlers
    hangs. *)
Theorem gate_never_blocks (why_queries : list bool) (schedule : list nat) :
  exists more,
    avoids_work more (Gate.run schedule (Gate.init why_queries)) = true
    /\ forallb resting
         (Gate.handlers (Gate.run (schedule ++ more) (Gate.init why_queries)))
       = true
    /\ Gate.locked
         (Gate.sh (Gate.run (schedule ++ more) (Gate.init why_queries)))
       = false.
Proof.
  pose proof (run_invariant schedule _ (init_invariant why_queries)) as Hinv.
  destruct (invariant_can_rest _ Hinv) as [more [Ha [Hr Hl]]].
  exists more. rewrite run_app. auto.
Qed.
